(** * Antigravity Monitor: the telemetry engine of [src/src/extension.ts]

    A shallow embedding of the query classifier, the usage estimator, the
    branch cache, the three counter tables with their load-time passes
    (legacy migration, one-time seeding, project clean-up), the edit
    listener and the export merge, followed by the properties proved about
    them.

    Conventions.
    - A JavaScript number that holds a counter, a length or a clock reading
      is an integer of [Z].  The places where the source leaves the integers
      (a division by 4 or by 100, a multiplication by the literals [0.2] and
      [0.8]) are evaluated in IEEE 754 binary64, as specified by the standard
      library's [SpecFloat], and [Math.ceil] brings the result back to [Z].
    - A JavaScript object used as a table is a [gmap] over its string keys;
      the raw model-count table, whose first key decides the schema, is an
      association list in key order.
    - A string is a [string] of code units below 256. *)

From Stdlib Require Import ZArith Lia Ascii String List.
From Stdlib Require Import SpecFloat.
From stdpp Require Import gmap strings list fin_maps pretty.

Local Open Scope string_scope.
Local Open Scope Z_scope.

(** ** Numbers: the binary64 operations the source uses *)

Module Binary64.

Definition prec : Z := 53.
Definition emax : Z := 1024.

(** The number a (safe) integer denotes. *)
Definition of_Z (z : Z) : spec_float := binary_normalize prec emax z 0 false.

Definition mul : spec_float -> spec_float -> spec_float := SFmul prec emax.
Definition div : spec_float -> spec_float -> spec_float := SFdiv prec emax.

(** The ceiling of [M * 2 ^ E]. *)
Definition ceil_scaled (M E : Z) : Z :=
  match E with
  | Zneg p => - ((- M) / 2 ^ Zpos p)
  | _ => M * 2 ^ E
  end.

(** [Math.ceil], read back as an integer.  The operands met in this program
    are finite; a zero gives 0, and so does the default case. *)
Definition ceil (x : spec_float) : Z :=
  match x with
  | S754_finite s m e => ceil_scaled (cond_Zopp s (Zpos m)) e
  | _ => 0
  end.

(** The literals [0.2] and [0.8]: the doubles nearest to 2/10 and 8/10. *)
Definition lit_0_2 : spec_float := div (of_Z 2) (of_Z 10).
Definition lit_0_8 : spec_float := div (of_Z 8) (of_Z 10).

End Binary64.

(** [Math.ceil(a / b)] and [Math.ceil(a * c)] for integers [a], [b] and a
    double [c]. *)
Definition Math_ceil_div (a b : Z) : Z :=
  Binary64.ceil (Binary64.div (Binary64.of_Z a) (Binary64.of_Z b)).

Definition Math_ceil_mul (a : Z) (c : spec_float) : Z :=
  Binary64.ceil (Binary64.mul (Binary64.of_Z a) c).

(** ** Strings and the regular expressions of [classifyQuery] *)

Module Regex.

Definition code (c : ascii) : N := N_of_ascii c.

Definition in_range (lo hi : N) (c : ascii) : bool :=
  ((lo <=? code c) && (code c <=? hi))%N.

(** [\w]: letters, digits and the underscore. *)
Definition is_word (c : ascii) : bool :=
  in_range 97 122 c || in_range 65 90 c || in_range 48 57 c || (code c =? 95)%N.

(** [\s]: tab, line feed, vertical tab, form feed, carriage return, space
    and the no-break space. *)
Definition is_space (c : ascii) : bool :=
  in_range 9 13 c || (code c =? 32)%N || (code c =? 160)%N.

(** [String.prototype.toLowerCase] on one code unit below 256. *)
Definition lower_unit (c : ascii) : ascii :=
  if in_range 65 90 c || in_range 192 214 c || in_range 216 222 c
  then ascii_of_N (code c + 32)
  else c.

Fixpoint toLowerCase (s : string) : string :=
  match s with
  | EmptyString => EmptyString
  | String c s' => String (lower_unit c) (toLowerCase s')
  end.

Inductive regex : Type :=
| Lit (s : string)            (* a run of literal characters *)
| Ws0                         (* \s* *)
| Ws1                         (* \s+ *)
| AnyOf (cs : string)         (* a character class [...] *)
| WordB                       (* \b *)
| Cat (r1 r2 : regex)
| Or (r1 r2 : regex).

(** A cursor: the character before it, if any, and the input after it. *)
Definition cursor : Type := option ascii * string.

Definition word_before (p : cursor) : bool :=
  match fst p with Some c => is_word c | None => false end.

Definition word_after (p : cursor) : bool :=
  match snd p with String c _ => is_word c | EmptyString => false end.

Definition at_boundary (p : cursor) : bool :=
  xorb (word_before p) (word_after p).

Fixpoint eat_lit (lit : string) (prev : option ascii) (s : string) : option cursor :=
  match lit with
  | EmptyString => Some (prev, s)
  | String c lit' =>
      match s with
      | String d s' => if Ascii.eqb c d then eat_lit lit' (Some d) s' else None
      | EmptyString => None
      end
  end.

(** Every cursor reached by consuming zero or more white-space characters. *)
Fixpoint eat_spaces (prev : option ascii) (s : string) : list cursor :=
  (prev, s) ::
  match s with
  | String c s' => if is_space c then eat_spaces (Some c) s' else nil
  | EmptyString => nil
  end.

Fixpoint mem_unit (c : ascii) (cs : string) : bool :=
  match cs with
  | EmptyString => false
  | String d cs' => Ascii.eqb c d || mem_unit c cs'
  end.

(** All the cursors at which a match of [r] started at [p] can end. *)
Fixpoint run (r : regex) (p : cursor) : list cursor :=
  match r with
  | Lit l => match eat_lit l (fst p) (snd p) with Some q => q :: nil | None => nil end
  | Ws0 => eat_spaces (fst p) (snd p)
  | Ws1 =>
      match snd p with
      | String c s' => if is_space c then eat_spaces (Some c) s' else nil
      | EmptyString => nil
      end
  | AnyOf cs =>
      match snd p with
      | String c s' => if mem_unit c cs then (Some c, s') :: nil else nil
      | EmptyString => nil
      end
  | WordB => if at_boundary p then p :: nil else nil
  | Cat r1 r2 => flat_map (run r2) (run r1 p)
  | Or r1 r2 => run r1 p ++ run r2 p
  end.

Definition matches_at (r : regex) (p : cursor) : bool :=
  match run r p with nil => false | _ :: _ => true end.

Fixpoint search (r : regex) (prev : option ascii) (s : string) : bool :=
  matches_at r (prev, s) ||
  match s with
  | String c s' => search r (Some c) s'
  | EmptyString => false
  end.

(** [RegExp.prototype.test]: is there a match anywhere in [s]? *)
Definition test (r : regex) (s : string) : bool := search r None s.

Fixpoint alternation (rs : list regex) : regex :=
  match rs with
  | nil => AnyOf ""
  | r :: nil => r
  | r :: rs' => Or r (alternation rs')
  end.

(** [/\b(r1|...|rn)\b/] *)
Definition bounded_words (rs : list regex) : regex :=
  Cat WordB (Cat (alternation rs) WordB).

End Regex.

Import Regex.

Definition debugging_re : regex :=
  bounded_words
    (Lit "error" :: Lit "exception" :: Lit "bug" :: Lit "fix" :: Lit "debug"
     :: Lit "traceback" :: Cat (Lit "stack") (Cat Ws0 (Lit "trace"))
     :: Lit "undefined" :: Lit "null" :: Lit "crash" :: Lit "failed"
     :: Lit "issue" :: nil).

Definition search_re : regex :=
  bounded_words
    (Lit "search" :: Lit "find" :: Lit "lookup" :: Lit "where" :: Lit "grep"
     :: Lit "locate" :: Lit "query" :: Cat (Lit "select") (Cat Ws1 (Lit "from"))
     :: nil).

Definition documentation_re : regex :=
  bounded_words
    (Lit "docstring" :: Lit "jsdoc" :: Lit "readme" :: Lit "comment"
     :: Lit "documentation" :: Lit "@param" :: Lit "@return"
     :: Lit "@description" :: Lit "/**" :: nil).

Definition planning_re : regex :=
  bounded_words
    (Lit "plan" :: Lit "todo" :: Lit "design" :: Lit "architecture"
     :: Lit "refactor" :: Lit "restructure" :: Lit "migrate" :: Lit "roadmap"
     :: Cat (Lit "implement") (Cat Ws1 (Lit "feature")) :: nil).

Definition coding_re : regex :=
  bounded_words
    (Lit "function" :: Lit "class" :: Lit "const" :: Lit "let" :: Lit "var"
     :: Lit "import" :: Lit "export" :: Lit "return" :: Lit "if" :: Lit "for"
     :: Lit "while" :: Lit "def " :: Lit "async" :: Lit "await" :: Lit "=>"
     :: nil).

Definition punctuation_re : regex := AnyOf "{};()[]".

Definition classifyQuery (text : string) : string :=
  let lower := toLowerCase text in
  if test debugging_re lower then "Debugging"
  else if test search_re lower then "Search"
  else if test documentation_re lower then "Documentation"
  else if test planning_re lower then "Planning"
  else if test coding_re lower || test punctuation_re text then "Coding"
  else "General Question".

(** ** The usage estimator (the arithmetic of the edit listener) *)

Definition AI_THRESHOLD : Z := 30.

Definition estimatedOutputTokens (newChars : Z) : Z := Math_ceil_div newChars 4.

Definition estimatedInputTokens (outputTokens : Z) : Z :=
  Math_ceil_mul outputTokens Binary64.lit_0_2.

(** ** The branch cache: [getCurrentBranch] *)

Record BranchCache : Type := {
  cachedBranch : string;
  branchLastChecked : Z
}.

Definition initialBranchCache : BranchCache :=
  {| cachedBranch := "unknown"; branchLastChecked := 0 |}.

(** What one call observes of its surroundings: the branch name the Git
    extension reports for the chosen repository ([None] when there is no
    extension, no repository, or strategy 1 throws), the clock, the first
    workspace folder, and what [git rev-parse --abbrev-ref HEAD] prints once
    trimmed ([None] when [execSync] throws). *)
Record BranchEnv : Type := {
  headName : option string;
  clock : Z;
  wsFolder : option string;
  gitRevParse : option string
}.

Record BranchResult : Type := {
  branch : string;
  cacheAfter : BranchCache;
  execInvoked : bool
}.

(** Truthiness of an optional string: present and not empty. *)
Definition truthy_string (o : option string) : option string :=
  match o with
  | Some EmptyString => None
  | other => other
  end.

Definition cacheFresh (c : BranchCache) (now : Z) : bool :=
  (now - branchLastChecked c <? 10000)
  && negb (String.eqb (cachedBranch c) "unknown")
  && negb (String.eqb (cachedBranch c) "no-git-repo").

Definition getCurrentBranch (c : BranchCache) (env : BranchEnv) : BranchResult :=
  match truthy_string (headName env) with
  | Some branchName =>
      {| branch := branchName;
         cacheAfter := {| cachedBranch := branchName;
                          branchLastChecked := branchLastChecked c |};
         execInvoked := false |}
  | None =>
      let now := clock env in
      if cacheFresh c now then
        {| branch := cachedBranch c; cacheAfter := c; execInvoked := false |}
      else
        let '(found, invoked) :=
          match truthy_string (wsFolder env) with
          | Some _ =>
              match gitRevParse env with
              | Some out => (out, true)
              | None => ("no-git-repo", true)
              end
          | None => (cachedBranch c, false)
          end in
        {| branch := found;
           cacheAfter := {| cachedBranch := found; branchLastChecked := now |};
           execInvoked := invoked |}
  end.

(** ** The counter tables *)

(** One record of the token/query table (per date) or of the project table
    (per branch): the two tables share the shape. *)
Record UsageRecord : Type := {
  inputTokens : Z;
  outputTokens : Z;
  queries : gmap string Z
}.

Definition freshRecord : UsageRecord :=
  {| inputTokens := 0; outputTokens := 0; queries := ∅ |}.

(** The extension's [globalState], at the keys it uses. *)
Record GlobalState : Type := {
  daily_usage_stats : gmap string (gmap string Z);
  daily_token_query_stats : gmap string UsageRecord;
  project_usage_stats : gmap string UsageRecord;
  antigravity_userId : option string
}.

Definition defaultModel : string := "Gemini 1.5 Pro".

(** [x || 0] on a counter that may be missing. *)
Definition or_zero (o : option Z) : Z := default 0 o.

(** [Object.values(models).reduce((a, b) => a + b, 0)] *)
Definition sumValues (models : gmap string Z) : Z :=
  map_fold (fun _ b a => a + b) 0 models.

(** ** Legacy migration of the raw model-count table

    The raw table is whatever [globalState] holds: its values are numbers
    (the old schema) or objects.  Keys are kept in enumeration order, as the
    schema test looks at the first one. *)

Module Migration.

#[local] Unset Elimination Schemes.
Inductive jsval : Type :=
| JUndefined
| JNum (n : Z)
| JObj (fields : list (string * jsval)).
#[local] Set Elimination Schemes.

Definition jsobject : Type := list (string * jsval).

Definition keys (o : jsobject) : list string := map fst o.

(** [o[k]] *)
Fixpoint get (o : jsobject) (k : string) : jsval :=
  match o with
  | nil => JUndefined
  | (k', v) :: o' => if String.eqb k' k then v else get o' k
  end.

(** [o[k] = v]: in place when the key exists, at the end otherwise. *)
Fixpoint set (o : jsobject) (k : string) (v : jsval) : jsobject :=
  match o with
  | nil => (k, v) :: nil
  | (k', v') :: o' =>
      if String.eqb k' k then (k, v) :: o' else (k', v') :: set o' k v
  end.

Definition is_number (v : jsval) : bool :=
  match v with JNum _ => true | _ => false end.

(** The loop body [stats[d] = { 'Gemini 1.5 Pro': rawStats[d] }]. *)
Definition wrap (rawStats : jsobject) (stats : jsobject) (d : string) : jsobject :=
  set stats d (JObj ((defaultModel, get rawStats d) :: nil)).

(** The table in use after the pass, and whether it was written back. *)
Definition migrate (rawStats : jsobject) : jsobject * bool :=
  let dates := keys rawStats in
  match dates with
  | d0 :: _ =>
      if is_number (get rawStats d0)
      then (fold_left (wrap rawStats) dates nil, true)
      else (rawStats, false)
  | nil => (rawStats, false)
  end.

(** The sum of every number found in a value. *)
Fixpoint total (v : jsval) : Z :=
  match v with
  | JUndefined => 0
  | JNum n => n
  | JObj fields =>
      (fix sum (l : list (string * jsval)) : Z :=
         match l with
         | nil => 0
         | (_, w) :: l' => total w + sum l'
         end) fields
  end.

Definition totalTokens (o : jsobject) : Z := total (JObj o).

End Migration.

(** ** One-time seeding of the token/query table *)

Definition seedRecord (dayTotal : Z) : UsageRecord :=
  {| inputTokens := Math_ceil_mul dayTotal Binary64.lit_0_2;
     outputTokens := Math_ceil_mul dayTotal Binary64.lit_0_8;
     queries := {[ "Coding" := Math_ceil_div dayTotal 100 ]} |}.

Definition seededTQ (stats : gmap string (gmap string Z)) : gmap string UsageRecord :=
  map_fold (fun date models acc => <[date := seedRecord (sumValues models)]> acc)
           ∅ stats.

(** The token/query table after the pass, and whether the pass seeded. *)
Definition seedTokenQuery (stats : gmap string (gmap string Z))
    (existingTokenQuery : gmap string UsageRecord) : gmap string UsageRecord * bool :=
  if bool_decide (size existingTokenQuery = 0%nat)
     && bool_decide ((0 < size stats)%nat)
  then (seededTQ stats, true)
  else (existingTokenQuery, false).

(** ** Clean-up of the project table *)

Definition expectedFromSeed (proj : UsageRecord) : Z :=
  Math_ceil_div (inputTokens proj + outputTokens proj) 100.

(** The test that guards [delete existingProject[key]]. *)
Definition removable (key : string) (proj : UsageRecord) : bool :=
  bool_decide (size (queries proj) = 1%nat)
  && match queries proj !! "Coding" with
     | Some coding =>
         negb (coding =? 0)
         && ((coding =? expectedFromSeed proj) || String.eqb key "unknown")
     | None => false
     end.

Definition cleanupStep (acc : gmap string UsageRecord * bool) (key : string)
    : gmap string UsageRecord * bool :=
  match acc.1 !! key with
  | Some proj => if removable key proj then (delete key acc.1, true) else acc
  | None => acc
  end.

(** The project table after the pass, and [needsCleanup]. *)
Definition cleanupProjects (existingProject : gmap string UsageRecord)
    : gmap string UsageRecord * bool :=
  fold_left cleanupStep (map_to_list existingProject).*1
            (existingProject, false).

(** ** The edit listener *)

(** What the listener shows to the outside: the status-bar text, the
    console line that reports the query type [classifyQuery] has returned,
    and the message posted to an open dashboard. *)
Inductive Effect : Type :=
| StatusBar (todayTokens : Z)
| Classified (text queryType : string)
| LiveUpdate (modelStats : gmap string (gmap string Z))
             (tokenQueryStats projectStats : gmap string UsageRecord)
             (currentBranch : string).

Record Monitor : Type := {
  aiUsageCount : Z;
  aiGeneratedChars : Z;
  globalState : GlobalState;
  branchCache : BranchCache;
  activePanel : bool
}.

(** What the processing of one change observes: today's date key, and the
    surroundings of its two calls of [getCurrentBranch]. *)
Record ChangeEnv : Type := {
  dateKey : string;
  trackingEnv : BranchEnv;
  liveEnv : BranchEnv
}.

Definition recordUsage (dateKey : string) (tokens : Z)
    (currentStats : gmap string (gmap string Z)) : gmap string (gmap string Z) :=
  let day := default ∅ (currentStats !! dateKey) in
  <[dateKey := <[defaultModel := or_zero (day !! defaultModel) + tokens]> day]>
    currentStats.

(** The shared update of steps 2 and 3: add the two estimates and count one
    query of the given type under [key]. *)
Definition recordQuery (key : string) (estIn estOut : Z) (queryType : string)
    (table : gmap string UsageRecord) : gmap string UsageRecord :=
  let r := default freshRecord (table !! key) in
  <[key := {| inputTokens := inputTokens r + estIn;
              outputTokens := outputTokens r + estOut;
              queries := <[queryType := or_zero (queries r !! queryType) + 1]>
                           (queries r) |}]> table.

Definition processChange (env : ChangeEnv) (m : Monitor) (text : string)
    : Monitor * list Effect :=
  let newChars := Z.of_nat (String.length text) in
  if AI_THRESHOLD <? newChars then
    let estOut := estimatedOutputTokens newChars in
    let estIn := estimatedInputTokens estOut in
    let estimatedTokens := estIn + estOut in
    let gs := globalState m in
    let currentStats := recordUsage (dateKey env) estimatedTokens (daily_usage_stats gs) in
    let totalToday := sumValues (default ∅ (currentStats !! dateKey env)) in
    let queryType := classifyQuery text in
    let tqStats :=
      recordQuery (dateKey env) estIn estOut queryType (daily_token_query_stats gs) in
    let tracked := getCurrentBranch (branchCache m) (trackingEnv env) in
    let projStats :=
      recordQuery (branch tracked) estIn estOut queryType (project_usage_stats gs) in
    let live := getCurrentBranch (cacheAfter tracked) (liveEnv env) in
    ({| aiUsageCount := aiUsageCount m + 1;
        aiGeneratedChars := aiGeneratedChars m + newChars;
        globalState := {| daily_usage_stats := currentStats;
                          daily_token_query_stats := tqStats;
                          project_usage_stats := projStats;
                          antigravity_userId := antigravity_userId gs |};
        branchCache := if activePanel m then cacheAfter live else cacheAfter tracked;
        activePanel := activePanel m |},
     StatusBar totalToday :: Classified text queryType ::
     (if activePanel m
      then LiveUpdate currentStats tqStats projStats (branch live) :: nil
      else nil))
  else (m, nil).

(** [onDidChangeTextDocument]: the changes of one event, in order, each
    with what its processing observes. *)
Fixpoint onDidChangeTextDocument (m : Monitor) (contentChanges : list (ChangeEnv * string))
    : Monitor * list Effect :=
  match contentChanges with
  | nil => (m, nil)
  | (env, text) :: rest =>
      let '(m1, shown1) := processChange env m text in
      let '(m2, shown2) := onDidChangeTextDocument m1 rest in
      (m2, (shown1 ++ shown2)%list)
  end.

(** ** Export and upload *)

Inductive field : Type :=
| FStr (s : string)
| FUsage (usage : gmap string (gmap string Z))
| FRecords (records : gmap string UsageRecord).

(** [getExportData], with the clock reading used when a user id has to be
    generated; the second component is [globalState] afterwards. *)
Definition getExportData (gs : GlobalState) (userEmail : string) (now : Z)
    : gmap string field * GlobalState :=
  let storedUserId :=
    match truthy_string (antigravity_userId gs) with
    | Some id => id
    | None => "user_" +:+ pretty now
    end in
  (<["userId" := FStr storedUserId]>
   (<["email" := FStr (if String.eqb userEmail "Guest"
                       then "exported_user@example.com" else userEmail)]>
   (<["usage" := FUsage (daily_usage_stats gs)]>
   (<["tokenQuery" := FRecords (daily_token_query_stats gs)]>
   (<["projects" := FRecords (project_usage_stats gs)]> ∅)))),
   {| daily_usage_stats := daily_usage_stats gs;
      daily_token_query_stats := daily_token_query_stats gs;
      project_usage_stats := project_usage_stats gs;
      antigravity_userId := Some storedUserId |}).

(** What [JSON.parse] of the dashboard file gives. *)
Inductive parsed : Type :=
| ParseError
| JsonArray (users : list (gmap string field))
| JsonObject (user : gmap string field).

Definition readCurrentData (json : parsed) : list (gmap string field) :=
  match json with
  | JsonArray users => users
  | JsonObject user => user :: nil
  | ParseError => nil
  end.

(** [a === b] on two fields that may be missing: strings compare by
    content, two tables read from different places are different objects. *)
Definition strictEq (a b : option field) : bool :=
  match a, b with
  | None, None => true
  | Some (FStr x), Some (FStr y) => String.eqb x y
  | _, _ => false
  end.

Definition sameUser (currentUserData u : gmap string field) : bool :=
  strictEq (u !! "userId") (currentUserData !! "userId")
  || strictEq (u !! "email") (currentUserData !! "email").

(** The text a template literal puts for a field. *)
Definition interpolate (o : option field) : string :=
  match o with
  | Some (FStr s) => s
  | Some _ => "[object Object]"
  | None => "undefined"
  end.

Definition defaultAvatar (currentUserData : gmap string field) : field :=
  FStr ("https://api.dicebear.com/7.x/avataaars/svg?seed="
        +:+ interpolate (currentUserData !! "userId")).

(** The update-or-add step of [antigravity.exportAndUpload].  An object
    spread [{...a, ...b}] is the union in which [b] wins. *)
Definition mergeExport (currentData : list (gmap string field))
    (currentUserData : gmap string field) : list (gmap string field) :=
  match list_find (fun u => sameUser currentUserData u = true) currentData with
  | Some (existingIndex, existing) =>
      <[existingIndex := currentUserData ∪ existing]> currentData
  | None =>
      (currentData ++ (<["avatarUrl" := defaultAvatar currentUserData]> currentUserData) :: nil)%list
  end.

(** ** The query types *)

Definition QUERY_TYPES : list string :=
  "Coding" :: "Debugging" :: "Planning" :: "Search" :: "Documentation"
  :: "General Question" :: nil.

(** ** The machine's address: [getSystemInfo] *)

Module Os.

(** What [os.networkInterfaces()] tells of one address of an interface. *)
Record NetworkInterfaceInfo : Type := {
  internal : bool;
  mac : string
}.

End Os.

Record SystemInfo : Type := {
  hostname : string;
  mac : string
}.

(** The test of the inner loop:
    [!entry.internal && entry.mac && entry.mac !== '00:00:00:00:00:00']. *)
Definition usable (entry : Os.NetworkInterfaceInfo) : bool :=
  negb (Os.internal entry)
  && negb (String.eqb (Os.mac entry) "")
  && negb (String.eqb (Os.mac entry) "00:00:00:00:00:00").

(** The inner loop over the addresses of one interface: it stops at the
    first usable one. *)
Fixpoint scanEntries (iface : list Os.NetworkInterfaceInfo) (mac : string) : string :=
  match iface with
  | nil => mac
  | entry :: rest => if usable entry then Os.mac entry else scanEntries rest mac
  end.

(** The outer loop over the interface names, in the order of
    [Object.keys]; the entry of a name may be missing.  It stops once [mac]
    is no longer 'unknown'. *)
Fixpoint scanInterfaces (interfaces : list (string * option (list Os.NetworkInterfaceInfo)))
    (mac : string) : string :=
  match interfaces with
  | nil => mac
  | (_, iface) :: rest =>
      let mac1 := match iface with
                  | Some entries => scanEntries entries mac
                  | None => mac
                  end in
      if negb (String.eqb mac1 "unknown") then mac1 else scanInterfaces rest mac1
  end.

(** [getSystemInfo], given what [os.hostname()] and [os.networkInterfaces()]
    return ([None] when the latter throws). *)
Definition getSystemInfo (osHostname : string)
    (networkInterfaces : option (list (string * option (list Os.NetworkInterfaceInfo))))
    : SystemInfo :=
  {| hostname := osHostname;
     mac := match networkInterfaces with
            | Some interfaces => scanInterfaces interfaces "unknown"
            | None => "unknown"
            end |}.

(** ** Consent before the e-mail look-up: [getAntigravityEmail] *)

(** What a run does to its surroundings, in order. *)
Inductive Action : Type :=
| AskConsent            (* showInformationMessage(friendlyMsg, 'Allow', 'No') *)
| StoreConsent          (* globalState.update(consentKey, true) *)
| ReadStateDb           (* getUserEmailFromDB() *)
| ScanProcesses         (* execSync(cmd) *)
| CallStatusApi (port : Z) (csrfToken : string).

(** What one run of [getAntigravityEmail] meets: the stored consent, the
    button chosen when asked ([None] when the message is dismissed), what
    [getUserEmailFromDB] resolves to, the values of [port] and [csrfToken]
    when the loop over the process list ends ([None] for the pair when
    [execSync] throws), and what the request to the local server resolves
    to. *)
Record EmailEnv : Type := {
  hasConsented : bool;
  selection : option string;
  dbEmail : option string;
  processScan : option (option Z * option string);
  apiEmail : option string
}.

Record EmailResult : Type := {
  email : option string;
  actions : list Action;
  consentAfter : bool
}.

(** Truthiness of a number that may be missing. *)
Definition truthy_number (o : option Z) : option Z :=
  match o with
  | Some 0 => None
  | other => other
  end.

(** The steps that follow once consent is settled. *)
Definition lookupEmail (env : EmailEnv) : option string * list Action :=
  match truthy_string (dbEmail env) with
  | Some found => (Some found, ReadStateDb :: nil)
  | None =>
      match processScan env with
      | None => (None, ReadStateDb :: ScanProcesses :: nil)
      | Some (port, csrfToken) =>
          match truthy_number port, truthy_string csrfToken with
          | Some p, Some t =>
              (apiEmail env, ReadStateDb :: ScanProcesses :: CallStatusApi p t :: nil)
          | _, _ => (None, ReadStateDb :: ScanProcesses :: nil)
          end
      end
  end.

Definition getAntigravityEmail (env : EmailEnv) : EmailResult :=
  if hasConsented env then
    let '(found, done) := lookupEmail env in
    {| email := found; actions := done; consentAfter := true |}
  else
    match selection env with
    | Some choice =>
        if String.eqb choice "Allow" then
          let '(found, done) := lookupEmail env in
          {| email := found; actions := AskConsent :: StoreConsent :: done;
             consentAfter := true |}
        else {| email := None; actions := AskConsent :: nil; consentAfter := false |}
    | None => {| email := None; actions := AskConsent :: nil; consentAfter := false |}
    end.

(** ** The webview: totals of the token/query tab and of the project tab *)

(** [updateQueryTable]: one day's queries added to [queryTotals],
    [queryTotals[type] = (queryTotals[type] || 0) + day.queries[type]]. *)
Definition addQueries (queryTotals : gmap string Z) (dayQueries : gmap string Z)
    : gmap string Z :=
  map_fold (fun type count acc => <[type := or_zero (acc !! type) + count]> acc)
           queryTotals dayQueries.

Definition queryTotals (stats : gmap string UsageRecord) : gmap string Z :=
  map_fold (fun _ day acc => addQueries acc (queries day)) ∅ stats.




(** ** The webview: the date filter *)

(** What the [Date] arithmetic of the webview gives at the current time: the
    date keys it computes, and its three comparisons of an entry's date
    with the bounds of a range of weeks. *)
Record DateEnv : Type := {
  todayKey : string;                  (* toDateKey(now) *)
  yesterdayKey : string;              (* toDateKey(y) *)
  weekStartKey : string;              (* toDateKey(sw) *)
  lastWeekStartKey : string;          (* toDateKey(lws) *)
  lastWeekEndKey : string;            (* toDateKey(lwe), six days after lws *)
  twoWeeksAgoKey : string;            (* toDateKey(tw) *)
  lastMonthKey : string;              (* toDateKey(lm) *)
  sinceWeekStart : string -> bool;    (* entryDate >= sw *)
  withinLastWeek : string -> bool;    (* entryDate >= lws && entryDate < lwe *)
  sinceTwoWeeksAgo : string -> bool   (* entryDate >= tw *)
}.

(** [s.slice(0, n)] and [s.startsWith(p)] *)
Definition slice (n : nat) (s : string) : string := substring 0 n s.

Definition startsWith (s p : string) : bool := String.prefix p s.

(** The [switch] of [filterByDate]: it has no default, so that a range it
    does not list includes nothing. *)
Definition include (env : DateEnv) (range dateStr : string) : bool :=
  if String.eqb range "all" then true
  else if String.eqb range "today" then String.eqb dateStr (todayKey env)
  else if String.eqb range "yesterday" then String.eqb dateStr (yesterdayKey env)
  else if String.eqb range "this_week" then sinceWeekStart env dateStr
  else if String.eqb range "last_week" then withinLastWeek env dateStr
  else if String.eqb range "last_2_weeks" then sinceTwoWeeksAgo env dateStr
  else if String.eqb range "this_month" then startsWith dateStr (slice 7 (todayKey env))
  else if String.eqb range "last_month" then startsWith dateStr (slice 7 (lastMonthKey env))
  else if String.eqb range "this_year" then startsWith dateStr (slice 4 (todayKey env))
  else false.

Definition filterByDate {V : Type} (env : DateEnv) (data : gmap string V) (range : string)
    : gmap string V :=
  filter (fun entry => include env range entry.1 = true) data.

Definition getDateRangeLabel (env : DateEnv) (range : string) : string :=
  if String.eqb range "today" then todayKey env
  else if String.eqb range "yesterday" then yesterdayKey env
  else if String.eqb range "this_week" then weekStartKey env +:+ " to " +:+ todayKey env
  else if String.eqb range "last_week"
       then lastWeekStartKey env +:+ " to " +:+ lastWeekEndKey env
  else if String.eqb range "last_2_weeks"
       then twoWeeksAgoKey env +:+ " to " +:+ todayKey env
  else if String.eqb range "this_month" then slice 7 (todayKey env)
  else if String.eqb range "last_month" then slice 7 (lastMonthKey env)
  else if String.eqb range "this_year" then slice 4 (todayKey env)
  else "All Time".

(** ** The webview: the names of the exported files *)

(** The characters that [/[^a-zA-Z0-9-]/] does not match. *)
Definition keeps (c : ascii) : bool :=
  in_range 97 122 c || in_range 65 90 c || in_range 48 57 c || (code c =? 45)%N.

(** [label.replace(/[^a-zA-Z0-9-]/g, '_')] *)
Fixpoint replaceUnsafe (label : string) : string :=
  match label with
  | EmptyString => EmptyString
  | String c rest => String (if keeps c then c else "_"%char) (replaceUnsafe rest)
  end.

(** The file name [exportPNG] proposes on the tab [activeTab], for the
    range chosen, when the tab has a chart to export. *)
Definition pngFilename (env : DateEnv) (activeTab range : string) : string :=
  let dateLabel := replaceUnsafe (getDateRangeLabel env range) in
  (if String.eqb activeTab "byModel" then "AI_Model"
   else if String.eqb activeTab "byTokenQuery" then "AI_Token"
   else if String.eqb activeTab "byProject" then "AI_Project"
   else "AI") +:+ "_" +:+ dateLabel +:+ ".png".

(** The file name [exportCSV] proposes; on a tab it does not know it posts
    nothing. *)
Definition csvFilename (env : DateEnv) (activeTab range : string) : option string :=
  let filenameLabel := replaceUnsafe (getDateRangeLabel env range) in
  if String.eqb activeTab "byModel" then Some ("AI_Model_" +:+ filenameLabel +:+ ".csv")
  else if String.eqb activeTab "byTokenQuery"
       then Some ("AI_Token_Query_" +:+ filenameLabel +:+ ".csv")
  else if String.eqb activeTab "byProject"
       then Some ("AI_Project_" +:+ filenameLabel +:+ ".csv")
  else None.

(** ** The dashboard: [getData] of [dashboard/app/page.tsx] *)

(** Truthiness of a field that may be missing. *)
Definition truthy_field (o : option field) : bool :=
  match o with
  | Some (FStr EmptyString) => false
  | Some _ => true
  | None => false
  end.

(** The body of [files.forEach]: what one file adds to [allUsers].  A file
    that cannot be read or parsed adds nothing. *)
Definition loadFile (allUsers : list (gmap string field)) (jsonData : parsed)
    : list (gmap string field) :=
  match jsonData with
  | JsonArray users => (allUsers ++ users)%list
  | JsonObject user =>
      if truthy_field (user !! "userId") && truthy_field (user !! "email")
      then (allUsers ++
            (if truthy_field (user !! "avatarUrl") then user
             else <["avatarUrl" := defaultAvatar user]> user) :: nil)%list
      else allUsers
  | ParseError => allUsers
  end.

(** [Map.prototype.set] on the entries of a [Map], kept in insertion order:
    the value of a key that is present is replaced in place, a new key goes
    to the end.  Keys are compared as [strictEq] compares the values a
    userId takes. *)
Fixpoint mapSet (entries : list (option field * gmap string field))
    (key : option field) (value : gmap string field)
    : list (option field * gmap string field) :=
  match entries with
  | nil => (key, value) :: nil
  | (key', value') :: rest =>
      if strictEq key' key then (key', value) :: rest
      else (key', value') :: mapSet rest key value
  end.

(** [Array.from(new Map(allUsers.map(u => [u.userId, u])).values())] *)
Definition uniqueUsers (allUsers : list (gmap string field)) : list (gmap string field) :=
  (fold_left (fun entries u => mapSet entries (u !! "userId") u) allUsers nil).*2.

(** [getData], given what parsing each file of the data directory gives, in
    the order of [readdirSync]. *)
Definition getData (files : list parsed) : list (gmap string field) :=
  uniqueUsers (fold_left loadFile files nil).

(** ** Notions used to state and prove the properties *)

(** [c] is the least integer that is not below [num / den]. *)
Definition is_ceiling (c num den : Z) : Prop :=
  den * (c - 1) < num <= den * c.

(** [Number.MAX_SAFE_INTEGER + 1]: below it every integer is a double. *)
Definition SAFE_BOUND : Z := 2 ^ 53.

(** The shift record that describes the quotient [num / D]: its integer
    part, the first bit after the point, and whether anything follows that
    bit. *)
Definition rs_of (num D : Z) : shr_record :=
  {| shr_m := num / D;
     shr_r := D <=? 2 * (num mod D);
     shr_s := negb (num mod D =? 0) && negb (2 * (num mod D) =? D) |}.

(** [num / D] rounded to the nearest integer, ties to even, as [SpecFloat]
    rounds a mantissa. *)
Definition rne (num D : Z) : Z :=
  round_nearest_even (num / D) (loc_of_shr_record (rs_of num D)).

(** The mantissa shared by the doubles nearest to 0.2 (exponent -55) and to
    0.8 (exponent -53); five times it is [2 ^ 55 + 2]. *)
Definition fifth_mantissa : positive := 7205759403792794.

(** The store a legacy table becomes, entry by entry. *)
Definition wrapped (rawStats : Migration.jsobject) : Migration.jsobject :=
  map (fun '(d, v) => (d, Migration.JObj ((defaultModel, v) :: nil))) rawStats.

(** The first key of the table is [d0] and holds an object. *)
Definition headed (d0 : string) (o : Migration.jsobject) : Prop :=
  exists fields rest, o = (d0, Migration.JObj fields) :: rest.

(** Sample values for the instances worked out below. *)
Definition sample_env : ChangeEnv :=
  {| dateKey := "2024-01-01";
     trackingEnv := {| headName := Some "main"; clock := 1000;
                       wsFolder := None; gitRevParse := None |};
     liveEnv := {| headName := Some "main"; clock := 1001;
                   wsFolder := None; gitRevParse := None |} |}.

Definition sample_monitor : Monitor :=
  {| aiUsageCount := 3; aiGeneratedChars := 200;
     globalState := {| daily_usage_stats := {[ "2024-01-01" := {[ defaultModel := 36 ]} ]};
                       daily_token_query_stats := ∅;
                       project_usage_stats := ∅;
                       antigravity_userId := None |};
     branchCache := initialBranchCache;
     activePanel := true |}.

(** 120 characters, among them the word "bug". *)
Definition sample_text : string :=
  "there is a bug when the parser reads an empty line so skip blank input before we split it into words and count them all.".







(** A change that the listener counts. *)
Definition qualifies (change : ChangeEnv * string) : bool :=
  AI_THRESHOLD <? Z.of_nat (String.length change.2).

(** The characters a list of changes inserts. *)
Definition insertedChars (changes : list (ChangeEnv * string)) : Z :=
  fold_right (fun change total => Z.of_nat (String.length change.2) + total) 0 changes.

(** The classifications among the effects shown, in order. *)
Fixpoint classifications (shown : list Effect) : list (string * string) :=
  match shown with
  | nil => nil
  | Classified text queryType :: rest => (text, queryType) :: classifications rest
  | _ :: rest => classifications rest
  end.


(** Every counter of [r] is in [r'], with a value that is not smaller. *)
Definition record_le (r r' : UsageRecord) : Prop :=
  inputTokens r <= inputTokens r'
  /\ outputTokens r <= outputTokens r'
  /\ forall (q : string) (n : Z), queries r !! q = Some n ->
       exists n' : Z, queries r' !! q = Some n' /\ n <= n'.

Definition table_le (t t' : gmap string UsageRecord) : Prop :=
  forall (key : string) (r : UsageRecord), t !! key = Some r ->
    exists r' : UsageRecord, t' !! key = Some r' /\ record_le r r'.

Definition usage_le (u u' : gmap string (gmap string Z)) : Prop :=
  forall (date model : string) (day : gmap string Z) (n : Z),
    u !! date = Some day -> day !! model = Some n ->
    exists (day' : gmap string Z) (n' : Z),
      u' !! date = Some day' /\ day' !! model = Some n' /\ n <= n'.

(** Every query type counted in the table is one of [QUERY_TYPES]. *)
Definition known_types (t : gmap string UsageRecord) : Prop :=
  forall (key : string) (r : UsageRecord) (q : string),
    t !! key = Some r -> is_Some (queries r !! q) -> In q QUERY_TYPES.

(** The addresses of all interfaces, in the order the loops meet them. *)
Definition addresses (interfaces : list (string * option (list Os.NetworkInterfaceInfo)))
    : list Os.NetworkInterfaceInfo :=
  concat (map (fun named => default nil named.2) interfaces).

(** Does the action touch anything that tells who the user is? *)
Definition reads_profile (a : Action) : bool :=
  match a with
  | ReadStateDb | ScanProcesses | CallStatusApi _ _ => true
  | AskConsent | StoreConsent => false
  end.

(** The values of the date range selector. *)
Definition known_ranges : list string :=
  "all" :: "today" :: "yesterday" :: "this_week" :: "last_week" :: "last_2_weeks"
  :: "this_month" :: "last_month" :: "this_year" :: nil.

(** Every code unit of the string passes the test. *)
Fixpoint all_units (p : ascii -> bool) (s : string) : bool :=
  match s with
  | EmptyString => true
  | String c rest => p c && all_units p rest
  end.

(** A letter, a digit, a hyphen, an underscore or a dot. *)
Definition plain_unit (c : ascii) : bool :=
  keeps c || (code c =? 95)%N || (code c =? 46)%N.

(** Does the record have this userId? *)
Definition keyed (key : option field) (u : gmap string field) : bool :=
  strictEq (u !! "userId") key.

(** The entries of the [Map] that [uniqueUsers] builds. *)
Definition entriesOf (allUsers : list (gmap string field))
    : list (option field * gmap string field) :=
  fold_left (fun entries u => mapSet entries (u !! "userId") u) allUsers nil.




Definition sample_interfaces : list (string * option (list Os.NetworkInterfaceInfo)) :=
  ("lo", Some ({| Os.internal := true; Os.mac := "00:00:00:00:00:00" |} :: nil))
  :: ("tun0", None)
  :: ("eth0", Some ({| Os.internal := false; Os.mac := "00:00:00:00:00:00" |}
                    :: {| Os.internal := false; Os.mac := "a4:83:e7:12:9c:01" |} :: nil))
  :: ("wlan0", Some ({| Os.internal := false; Os.mac := "f0:18:98:aa:bb:02" |} :: nil))
  :: nil.

Definition sample_dates : DateEnv :=
  {| todayKey := "2024-03-15"; yesterdayKey := "2024-03-14";
     weekStartKey := "2024-03-11"; lastWeekStartKey := "2024-03-04";
     lastWeekEndKey := "2024-03-10"; twoWeeksAgoKey := "2024-03-01";
     lastMonthKey := "2024-02-15";
     sinceWeekStart := fun d => String.leb "2024-03-11" d;
     withinLastWeek := fun d => String.leb "2024-03-04" d && negb (String.leb "2024-03-11" d);
     sinceTwoWeeksAgo := fun d => String.leb "2024-03-01" d |}.

Definition sample_files : list parsed :=
  JsonArray ((<["userId" := FStr "user_1"]> (<["email" := FStr "a@example.com"]> ∅))
             :: (<["userId" := FStr "user_2"]> (<["email" := FStr "b@example.com"]> ∅))
             :: nil)
  :: ParseError
  :: JsonObject (<["userId" := FStr "user_1"]> (<["email" := FStr "new@example.com"]> ∅))
  :: JsonObject (<["email" := FStr "nobody@example.com"]> ∅)
  :: nil.

(** * Properties *)

(** ** Binary64 evaluation agrees with exact ceilings on safe integers

    How [SpecFloat] rounds a quotient, followed from its definitions: a shift
    by [p] bits of the record of [num / D] is the record of
    [num / (2 ^ p * D)], and rounding that record gives the nearest integer,
    ties to even. *)

Lemma digits2_pos_size (p : positive) : digits2_pos p = Pos.size p.
Proof. induction p; simpl; congruence. Qed.

Lemma digits2_pos_bounds (p : positive) :
  2 ^ (Zpos (digits2_pos p) - 1) <= Zpos p < 2 ^ Zpos (digits2_pos p).
Proof.
  rewrite digits2_pos_size. split.
  - pose proof (Pos.size_le p) as H.
    assert (Zpos (2 ^ Pos.size p) <= Zpos p~0)%Z by (apply Pos2Z.pos_le_pos; exact H).
    rewrite Pos2Z.inj_pow in H0.
    replace (Zpos (Pos.size p)) with (Z.succ (Zpos (Pos.size p) - 1)) in H0 by lia.
    rewrite Z.pow_succ_r in H0 by lia. lia.
  - pose proof (Pos.size_gt p) as H.
    apply Pos2Z.pos_lt_pos in H. rewrite Pos2Z.inj_pow in H. exact H.
Qed.

Ltac bool_cases :=
  repeat match goal with
  | |- context [?a <=? ?b] => destruct (Z.leb_spec a b)
  | |- context [?a =? ?b] => destruct (Z.eqb_spec a b)
  end; cbn [negb andb orb]; try reflexivity; try lia.

(** One shift to the right halves the scale of the record. *)
Lemma shr_1_rs_of (num D : Z) :
  0 <= num -> 0 < D -> shr_1 (rs_of num D) = rs_of num (2 * D).
Proof.
  intros HN HD. unfold rs_of, shr_1.
  pose proof (Z.div_mod num D ltac:(lia)) as Hdm.
  pose proof (Z.mod_pos_bound num D HD) as Hr.
  assert (Hq : 0 <= num / D) by (apply Z.div_pos; lia).
  set (q := num / D) in *. set (r := num mod D) in *.
  assert (Hdiv : forall q2 b, q = 2 * q2 + b -> 0 <= b < 2 ->
             num / (2 * D) = q2 /\ num mod (2 * D) = b * D + r).
  { intros q2 b Hqb Hb.
    assert (num = (2 * D) * q2 + (b * D + r)) by nia.
    assert (0 <= b * D + r < 2 * D) by nia.
    split; symmetry.
    - eapply Z.div_unique_pos; eauto.
    - eapply Z.mod_unique_pos; eauto. }
  destruct q as [|[p|p|]|p] eqn:Eq; try lia.
  - destruct (Hdiv 0 0 ltac:(lia) ltac:(lia)) as [-> ->]. f_equal; bool_cases.
  - destruct (Hdiv (Zpos p) 1 ltac:(lia) ltac:(lia)) as [-> ->]. f_equal; bool_cases.
  - destruct (Hdiv (Zpos p) 0 ltac:(lia) ltac:(lia)) as [-> ->]. f_equal; bool_cases.
  - destruct (Hdiv 0 1 ltac:(lia) ltac:(lia)) as [-> ->]. f_equal; bool_cases.
Qed.

Lemma rs_of_ext (num D D' : Z) : D = D' -> rs_of num D = rs_of num D'.
Proof. congruence. Qed.

Lemma iter_pos_shr_1 (p : positive) :
  forall num D, 0 <= num -> 0 < D ->
  SpecFloat.iter_pos shr_1 p (rs_of num D) = rs_of num (2 ^ Zpos p * D).
Proof.
  induction p as [p IH | p IH |]; intros num D HN HD; cbn [SpecFloat.iter_pos].
  - rewrite shr_1_rs_of, IH, IH by (try apply Z.mul_pos_pos; lia).
    apply rs_of_ext.
    replace (Z.pos p~1) with (Z.pos p + Z.pos p + 1) by lia.
    rewrite !Z.pow_add_r, Z.pow_1_r by lia. ring.
  - rewrite IH, IH by (try apply Z.mul_pos_pos; lia).
    apply rs_of_ext.
    replace (Z.pos p~0) with (Z.pos p + Z.pos p) by lia.
    rewrite Z.pow_add_r by lia. ring.
  - rewrite shr_1_rs_of by lia. apply rs_of_ext. reflexivity.
Qed.

Ltac rne_setup num D :=
  unfold rne, rs_of, loc_of_shr_record, round_nearest_even;
  let q := fresh "q" in let r := fresh "r" in
  pose proof (Z.div_mod num D ltac:(lia));
  pose proof (Z.mod_pos_bound num D ltac:(lia));
  set (q := num / D) in *; set (r := num mod D) in *;
  clearbody q r.

Ltac rne_cases :=
  repeat match goal with
  | |- context [?a <=? ?b] => destruct (Z.leb_spec a b)
  | |- context [?a =? ?b] => destruct (Z.eqb_spec a b)
  | |- context [Z.even ?a] => destruct (Z.even a)
  end; cbn [negb andb orb]; try nia.

(** Rounding moves a quotient by less than one, and is monotone: the four
    bounds below are all that the later proofs use of it. *)
Lemma rne_floor (num D : Z) : 0 < D -> num / D <= rne num D <= num / D + 1.
Proof. intros HD. rne_setup num D. rne_cases. Qed.

Lemma rne_lower (num D T : Z) : 0 < D -> T * D <= num -> T <= rne num D.
Proof. intros HD H. rne_setup num D. rne_cases. Qed.

Lemma rne_upper (num D T : Z) : 0 < D -> num <= T * D -> rne num D <= T.
Proof. intros HD H. rne_setup num D. rne_cases. Qed.

Lemma rne_down (num D T : Z) : 0 < D -> 2 * num < (2 * T + 1) * D -> rne num D <= T.
Proof. intros HD H. rne_setup num D. rne_cases. Qed.

Lemma rne_up (num D T : Z) : 0 < D -> (2 * T - 1) * D < 2 * num -> T <= rne num D.
Proof. intros HD H. rne_setup num D. rne_cases. Qed.

(** The number of binary digits, from bounds. *)
Lemma Zdigits2_unique (m k : Z) :
  0 < m -> 2 ^ (k - 1) <= m < 2 ^ k -> Zdigits2 m = k.
Proof.
  intros Hm [Hlo Hhi]. destruct m as [|p|p]; try lia. cbn [Zdigits2].
  pose proof (digits2_pos_bounds p) as [Hl Hh].
  set (d := Z.pos (digits2_pos p)) in *.
  assert (Hd : 0 < d) by (unfold d; lia).
  destruct (Z.lt_trichotomy d k) as [Hlt | [Heq | Hgt]]; [exfalso | exact Heq | exfalso].
  - assert (2 ^ d <= 2 ^ (k - 1)) by (apply Z.pow_le_mono_r; lia). lia.
  - destruct (Z.le_gt_cases 0 k) as [Hk | Hk].
    + assert (2 ^ k <= 2 ^ (d - 1)) by (apply Z.pow_le_mono_r; lia). lia.
    + rewrite (Z.pow_neg_r 2 k) in Hhi by lia. lia.
Qed.

Lemma Zdigits2_bounds (m : Z) :
  0 < m -> 2 ^ (Zdigits2 m - 1) <= m < 2 ^ Zdigits2 m.
Proof.
  intros Hm. destruct m as [|p|p]; try lia. apply digits2_pos_bounds.
Qed.

Lemma ceil_scaled_neg (M E : Z) : E < 0 -> Binary64.ceil_scaled M E = - ((- M) / 2 ^ (- E)).
Proof. destruct E; try lia. reflexivity. Qed.

Lemma ceil_scaled_nonneg (M E : Z) : 0 <= E -> Binary64.ceil_scaled M E = M * 2 ^ E.
Proof. destruct E; try lia; reflexivity. Qed.

Lemma ceil_scaled_double (M E : Z) : Binary64.ceil_scaled M (E + 1) = Binary64.ceil_scaled (2 * M) E.
Proof.
  destruct (Z.lt_trichotomy E (-1)) as [H | [H | H]].
  - rewrite !ceil_scaled_neg by lia.
    replace (- E) with (- (E + 1) + 1) by lia.
    rewrite Z.pow_add_r, Z.pow_1_r by lia.
    replace (- (2 * M)) with (2 * - M) by ring.
    rewrite (Z.mul_comm (2 ^ _) 2).
    rewrite Z.div_mul_cancel_l; [reflexivity | | lia].
    apply Z.pow_nonzero; lia.
  - subst E. change (-1 + 1) with 0. rewrite ceil_scaled_nonneg by lia.
    rewrite ceil_scaled_neg by lia. change (2 ^ (- (-1))) with 2. change (2 ^ 0) with 1.
    replace (- (2 * M)) with ((- M) * 2) by ring. rewrite Z.div_mul by lia. ring.
  - rewrite !ceil_scaled_nonneg by lia. rewrite Z.pow_add_r, Z.pow_1_r by lia. ring.
Qed.

Lemma shr_keep (mrs : shr_record) (e : Z) : shr mrs e 0 = (mrs, e).
Proof. reflexivity. Qed.

Lemma shr_rs_of (num D e p : Z) :
  0 <= num -> 0 < D -> 0 <= p ->
  shr (rs_of num D) e p = (rs_of num (2 ^ p * D), e + p).
Proof.
  intros HN HD Hp. destruct p as [|p|p]; try lia.
  - cbn [shr]. rewrite Z.add_0_r. f_equal. apply rs_of_ext. change (2 ^ 0) with 1. lia.
  - cbn [shr]. rewrite iter_pos_shr_1 by assumption. reflexivity.
Qed.

Lemma rs_of_exact (m : Z) : 0 <= m -> shr_record_of_loc m loc_Exact = rs_of m 1.
Proof.
  intros Hm. unfold rs_of. cbn [shr_record_of_loc].
  rewrite Z.div_1_r, Z.mod_1_r. reflexivity.
Qed.

Lemma fexp_normal (x : Z) : -1074 <= x - 53 -> fexp 53 1024 x = x - 53.
Proof. intros H. unfold fexp, emin. lia. Qed.

(** The rounding step of every operation, for a normal result: the mantissa
    is the quotient rounded at the scale that leaves 53 digits, and so the
    ceiling of the result is the ceiling of that rounded quotient. *)
Lemma round_aux_ceil (m e : Z) (l : location) (num D : Z) :
  0 <= num -> 0 < D -> 0 < m ->
  shr_record_of_loc m l = rs_of num D ->
  53 <= Zdigits2 m ->
  -1074 <= e + (Zdigits2 m - 53) ->
  e + (Zdigits2 m - 53) + 1 <= 971 ->
  Binary64.ceil (binary_round_aux 53 1024 false m e l)
  = Binary64.ceil_scaled (rne num (2 ^ (Zdigits2 m - 53) * D)) (e + (Zdigits2 m - 53)).
Proof.
  intros HN HD Hm Hrep Hd Hlo Hhi.
  set (p := Zdigits2 m - 53) in *.
  assert (Hmq : m = num / D).
  { apply (f_equal shr_m) in Hrep. cbn [shr_m rs_of] in Hrep.
    rewrite <- Hrep. destruct l as [|[]]; reflexivity. }
  pose proof (Zdigits2_bounds m Hm) as Hmb.
  assert (Hpow : 0 < 2 ^ p) by (apply Z.pow_pos_nonneg; lia).
  set (D' := 2 ^ p * D) in *.
  assert (HD' : 0 < D') by (unfold D'; apply Z.mul_pos_pos; lia).
  assert (Hm1 : 2 ^ 52 <= num / D' < 2 ^ 53).
  { unfold D'. rewrite (Z.mul_comm (2 ^ p) D), <- Z.div_div, <- Hmq by lia.
    replace (Zdigits2 m) with (53 + p) in Hmb by (unfold p; lia).
    replace (53 + p - 1) with (52 + p) in Hmb by lia.
    rewrite !Z.pow_add_r in Hmb by lia.
    split.
    - apply Z.div_le_lower_bound; lia.
    - apply Z.div_lt_upper_bound; lia. }
  pose proof (rne_floor num D' HD') as Hfl.
  unfold binary_round_aux, shr_fexp.
  rewrite fexp_normal by (fold p; lia).
  replace (Zdigits2 m + e - 53 - e) with p by (unfold p; lia).
  rewrite Hrep, shr_rs_of by lia. fold D'.
  change (round_nearest_even (shr_m (rs_of num D')) (loc_of_shr_record (rs_of num D')))
    with (rne num D').
  set (R := rne num D') in *.
  destruct (Z.eq_dec R (2 ^ 53)) as [HR | HR].
  - rewrite HR.
    replace (Zdigits2 (2 ^ 53)) with 54 by reflexivity.
    rewrite fexp_normal by lia.
    replace (54 + (e + p) - 53 - (e + p)) with 1 by lia.
    cbn [shr_record_of_loc shr SpecFloat.iter_pos]. 
    change (shr_m (shr_1 {| shr_m := 2 ^ 53; shr_r := false; shr_s := false |})) with (2 ^ 52).
    change (2 ^ 52) with (Z.pos (2 ^ 52)%positive).
    cbv iota beta.
    replace (e + p + 1 <=? 1024 - 53) with true by (symmetry; apply Z.leb_le; lia).
    change (Binary64.ceil (S754_finite false (2 ^ 52)%positive (e + p + 1)))
      with (Binary64.ceil_scaled (2 ^ 52) (e + p + 1)).
    rewrite ceil_scaled_double. reflexivity.
  - assert (HRb : 2 ^ 52 <= R < 2 ^ 53) by lia.
    rewrite (Zdigits2_unique R 53) by (change (53 - 1) with 52; lia).
    rewrite fexp_normal by lia.
    replace (53 + (e + p) - 53 - (e + p)) with 0 by lia.
    rewrite shr_keep. cbn [shr_record_of_loc shr_m].
    destruct R as [|r|r]; try lia.
    replace (e + p <=? 1024 - 53) with true by (symmetry; apply Z.leb_le; lia).
    reflexivity.
Qed.

Lemma Pos_iter_xO (d m : positive) : Zpos (Pos.iter xO m d) = Zpos m * 2 ^ Zpos d.
Proof.
  induction d as [|d IH] using Pos.peano_ind.
  - cbn [Pos.iter]. rewrite Z.pow_1_r. lia.
  - rewrite Pos.iter_succ, Pos2Z.inj_succ, Z.pow_succ_r by lia.
    rewrite Pos2Z.inj_xO, IH. ring.
Qed.

Lemma round_aux_exact53 (m : positive) (e : Z) :
  Zdigits2 (Zpos m) = 53 -> -1074 <= e <= 971 ->
  binary_round_aux 53 1024 false (Zpos m) e loc_Exact = S754_finite false m e.
Proof.
  intros Hd He. unfold binary_round_aux, shr_fexp.
  rewrite Hd, fexp_normal by lia.
  replace (53 + e - 53 - e) with 0 by lia.
  cbn [shr_record_of_loc]. rewrite shr_keep.
  cbn [shr_m loc_of_shr_record round_nearest_even].
  rewrite Hd, fexp_normal by lia.
  replace (53 + e - 53 - e) with 0 by lia.
  rewrite shr_keep. cbn [shr_m].
  replace (e <=? 1024 - 53) with true by (symmetry; apply Z.leb_le; lia).
  reflexivity.
Qed.

(** A positive integer below [2 ^ 53] is a normal double: its mantissa is
    the integer shifted to 53 bits. *)
Lemma of_Z_normal (n : Z) :
  0 < n < 2 ^ 53 ->
  exists m : positive,
    Binary64.of_Z n = S754_finite false m (Zdigits2 n - 53)
    /\ Zpos m = n * 2 ^ (53 - Zdigits2 n)
    /\ Zdigits2 (Zpos m) = 53.
Proof.
  intros [Hpos Hlt]. destruct n as [|p|p]; try lia.
  pose proof (Zdigits2_bounds (Zpos p) ltac:(lia)) as Hb.
  set (dn := Zdigits2 (Zpos p)) in *.
  assert (Hdn1 : 1 <= dn) by (unfold dn; cbn; lia).
  assert (Hdn : dn <= 53).
  { destruct (Z.le_gt_cases dn 53) as [H | H]; [exact H | exfalso].
    assert (2 ^ 53 <= 2 ^ (dn - 1)) by (apply Z.pow_le_mono_r; lia). lia. }
  unfold Binary64.of_Z, Binary64.prec, Binary64.emax, binary_normalize, binary_round.
  change (Z.pos (digits2_pos p)) with dn.
  rewrite Z.add_0_r, fexp_normal by lia.
  unfold shl_align. rewrite Z.sub_0_r.
  destruct (dn - 53) as [|q|q] eqn:Eq; try lia.
  - exists p. assert (dn = 53) by lia.
    assert (Hd : Zdigits2 (Zpos p) = 53) by (fold dn; lia).
    rewrite round_aux_exact53 by (try exact Hd; lia).
    replace (53 - dn) with 0 by lia. rewrite Z.pow_0_r, Z.mul_1_r.
    repeat split; [ exact Hd ].
  - exists (Pos.iter xO p q).
    assert (Hval : Zpos (Pos.iter xO p q) = Zpos p * 2 ^ (53 - dn)).
    { rewrite Pos_iter_xO. replace (53 - dn) with (Zpos q) by lia. reflexivity. }
    assert (Hd : Zdigits2 (Zpos (Pos.iter xO p q)) = 53).
    { apply Zdigits2_unique; [lia |]. rewrite Hval.
      assert (Hp0 : 0 < 2 ^ (53 - dn)) by (apply Z.pow_pos_nonneg; lia).
      assert (E1 : 2 ^ (53 - 1) = 2 ^ (dn - 1) * 2 ^ (53 - dn))
        by (rewrite <- Z.pow_add_r by lia; f_equal; lia).
      assert (E2 : 2 ^ 53 = 2 ^ dn * 2 ^ (53 - dn))
        by (rewrite <- Z.pow_add_r by lia; f_equal; lia).
      rewrite E1, E2. nia. }
    rewrite round_aux_exact53 by (try exact Hd; lia).
    repeat split; assumption.
Qed.

Lemma of_Z_zero : Binary64.of_Z 0 = S754_zero false.
Proof. reflexivity. Qed.

(** The location a division computes is the record of its quotient. *)
Lemma new_location_rs_of (num D : Z) :
  0 <= num -> 0 < D ->
  shr_record_of_loc (num / D) (new_location D (num mod D)) = rs_of num D.
Proof.
  intros HN HD. unfold rs_of.
  pose proof (Z.mod_pos_bound num D HD) as Hr.
  set (q := num / D). set (r := num mod D) in *. clearbody q r.
  unfold new_location, new_location_even, new_location_odd.
  destruct (Z.even D) eqn:Ev.
  - destruct (Z.eqb_spec r 0) as [-> | Hr0].
    + cbn [shr_record_of_loc]. f_equal; bool_cases.
    + destruct (Z.compare_spec (2 * r) D); cbn [shr_record_of_loc]; f_equal; bool_cases.
  - assert (Hodd : Z.odd D = true) by (rewrite <- Z.negb_even, Ev; reflexivity).
    apply Z.odd_spec in Hodd. destruct Hodd as [k Hk].
    destruct (Z.eqb_spec r 0) as [-> | Hr0].
    + cbn [shr_record_of_loc]. f_equal; bool_cases.
    + destruct (Z.compare_spec (2 * r + 1) D); cbn [shr_record_of_loc]; f_equal; bool_cases.
Qed.

Lemma ceil_scaled_nonpos (M E : Z) : E <= 0 -> Binary64.ceil_scaled M E = - ((- M) / 2 ^ (- E)).
Proof.
  intros H. destruct (Z.eq_dec E 0) as [-> | Hne].
  - cbn. rewrite Z.div_1_r. lia.
  - apply ceil_scaled_neg. lia.
Qed.

(** The ceiling of [R / U] when [R] lies in the half-open interval
    [(k * U, (k + 1) * U]]. *)
Lemma ceil_between (R U k : Z) :
  0 < U -> k * U < R <= (k + 1) * U -> - ((- R) / U) = k + 1.
Proof.
  intros HU [Hlo Hhi].
  assert ((- R) / U = - (k + 1)); [| lia].
  symmetry. apply (Z.div_unique_pos _ _ _ ((k + 1) * U - R)); nia.
Qed.

Lemma ceil_multiple (U k : Z) : 0 < U -> - ((- (k * U)) / U) = k.
Proof.
  intros HU. replace (- (k * U)) with ((- k) * U) by ring.
  rewrite Z.div_mul by lia. lia.
Qed.

Lemma ceil_quotient (n b : Z) :
  0 <= n -> 0 < b -> (n + b - 1) / b = n / b + (if n mod b =? 0 then 0 else 1).
Proof.
  intros Hn Hb.
  pose proof (Z.div_mod n b ltac:(lia)) as Hdm.
  pose proof (Z.mod_pos_bound n b Hb) as Hr.
  destruct (Z.eqb_spec (n mod b) 0) as [E | E].
  - symmetry. apply (Z.div_unique_pos _ _ _ (b - 1)); lia.
  - symmetry. apply (Z.div_unique_pos _ _ _ (n mod b - 1)); lia.
Qed.

(** Division of two safe integers, then [Math.ceil]: the exact ceiling. *)
Lemma div_ceil (n b : Z) :
  0 < n < 2 ^ 53 -> 0 < b < 2 ^ 53 ->
  Binary64.ceil (SFdiv 53 1024 (Binary64.of_Z n) (Binary64.of_Z b)) = (n + b - 1) / b.
Proof.
  intros Hn Hb.
  destruct (of_Z_normal n Hn) as (mx & -> & Hmx & Hdx).
  destruct (of_Z_normal b Hb) as (my & -> & Hmy & Hdy).
  pose proof (Zdigits2_bounds n ltac:(lia)) as Hnb.
  pose proof (Zdigits2_bounds b ltac:(lia)) as Hbb.
  set (dn := Zdigits2 n) in *. set (db := Zdigits2 b) in *.
  assert (Hdn : 1 <= dn <= 53).
  { split.
    - destruct (Z.le_gt_cases 1 dn) as [H | H]; [exact H | exfalso].
      rewrite (Z.pow_neg_r 2 (dn - 1)) in Hnb by lia.
      assert (2 ^ dn <= 2 ^ 0) by (apply Z.pow_le_mono_r; lia).
      change (2 ^ 0) with 1 in *. lia.
    - destruct (Z.le_gt_cases dn 53) as [H | H]; [exact H | exfalso].
      assert (2 ^ 53 <= 2 ^ (dn - 1)) by (apply Z.pow_le_mono_r; lia). lia. }
  assert (Hdb : 1 <= db <= 53).
  { split.
    - destruct (Z.le_gt_cases 1 db) as [H | H]; [exact H | exfalso].
      rewrite (Z.pow_neg_r 2 (db - 1)) in Hbb by lia.
      assert (2 ^ db <= 2 ^ 0) by (apply Z.pow_le_mono_r; lia).
      change (2 ^ 0) with 1 in *. lia.
    - destruct (Z.le_gt_cases db 53) as [H | H]; [exact H | exfalso].
      assert (2 ^ 53 <= 2 ^ (db - 1)) by (apply Z.pow_le_mono_r; lia). lia. }
  set (A := 2 ^ (53 - dn)) in *. set (B := 2 ^ (53 - db)) in *.
  assert (HA : 0 < A) by (apply Z.pow_pos_nonneg; lia).
  assert (HB : 0 < B) by (apply Z.pow_pos_nonneg; lia).
  pose proof (Zdigits2_bounds (Zpos mx) ltac:(lia)) as HMx.
  pose proof (Zdigits2_bounds (Zpos my) ltac:(lia)) as HMy.
  rewrite Hdx in HMx. rewrite Hdy in HMy. change (53 - 1) with 52 in *.
  cbn [SFdiv xorb]. unfold SFdiv_core_binary.
  rewrite Hdx, Hdy.
  replace (53 + (dn - 53) - (53 + (db - 53))) with (dn - db) by lia.
  rewrite fexp_normal by lia.
  replace (Z.min (dn - db - 53) (dn - 53 - (db - 53))) with (dn - db - 53) by lia.
  replace (dn - 53 - (db - 53) - (dn - db - 53)) with 53 by lia.
  rewrite Z.shiftl_mul_pow2 by lia.
  set (num := Z.pos mx * 2 ^ 53) in *.
  set (D := Z.pos my) in *.
  assert (HN : 0 < num) by (unfold num; lia).
  assert (HD : 0 < D) by (unfold D; lia).
  assert (Hqr : Z.div_eucl num D = (num / D, num mod D))
    by (unfold Z.div, Z.modulo; destruct (Z.div_eucl num D); reflexivity).
  rewrite Hqr.
  assert (Hq : 2 ^ 52 <= num / D < 2 ^ 54).
  { split.
    - apply Z.div_le_lower_bound; [lia |]. unfold num. nia.
    - apply Z.div_lt_upper_bound; [lia |]. unfold num.
      change (2 ^ 54) with (2 * 2 ^ 53). nia. }
  set (p := Zdigits2 (num / D) - 53).
  assert (Hp : p = 0 \/ p = 1).
  { destruct (Z.lt_ge_cases (num / D) (2 ^ 53)) as [H | H].
    - left. unfold p. rewrite (Zdigits2_unique (num / D) 53); [lia | lia |].
      change (53 - 1) with 52. lia.
    - right. unfold p. rewrite (Zdigits2_unique (num / D) 54); [lia | lia |].
      change (54 - 1) with 53. lia. }
  rewrite (round_aux_ceil (num / D) (dn - db - 53) _ num D);
    [ | lia | lia | lia | apply new_location_rs_of; lia | fold p; lia | fold p; lia | fold p; lia ].
  fold p.
  set (E := dn - db - 53 + p).
  assert (HE : E <= 0) by (unfold E; lia).
  rewrite ceil_scaled_nonpos by exact HE.
  set (U := 2 ^ (- E)).
  assert (HU : 0 < U) by (apply Z.pow_pos_nonneg; lia).
  set (D2 := 2 ^ p * D).
  assert (HD2 : 0 < D2) by (unfold D2; destruct Hp as [-> | ->]; lia).
  (* the exact quotient: num / D2 = (n / b) * U *)
  assert (Hkey : num * b = n * (D2 * U)).
  { assert (HDU : D2 * U = b * (A * 2 ^ 53)).
    { unfold D2, U. rewrite Hmy.
      assert (Hpow : 2 ^ p * 2 ^ (- E) * B = A * 2 ^ 53).
      { unfold A, B. rewrite <- !Z.pow_add_r by lia. f_equal. unfold E. lia. }
      nia. }
    rewrite HDU. unfold num. rewrite Hmx. fold A. ring. }
  assert (HUb : b < 2 * U).
  { assert (2 ^ db <= 2 * U).
    { replace (2 * U) with (2 ^ (1 + - E))
        by (unfold U; rewrite Z.pow_add_r by lia; reflexivity).
      apply Z.pow_le_mono_r; unfold E; lia. }
    lia. }
  rewrite ceil_quotient by lia.
  pose proof (Z.div_mod n b ltac:(lia)) as Hdm.
  pose proof (Z.mod_pos_bound n b ltac:(lia)) as Hr.
  set (k := n / b) in *. set (r := n mod b) in *.
  assert (Hk : 0 <= k) by (apply Z.div_pos; lia).
  set (W := D2 * U) in *.
  assert (HW : 0 < W) by (unfold W; nia).
  destruct (Z.eqb_spec r 0) as [Hr0 | Hr0].
  - assert (HNk : num = (k * U) * D2) by nia.
    assert (rne num D2 = k * U).
    { apply Z.le_antisymm.
      - apply rne_upper; lia.
      - apply rne_lower; lia. }
    rewrite H, ceil_multiple by lia. lia.
  - apply ceil_between; [lia |]. split.
    + assert (k * U + 1 <= rne num D2); [| lia].
      apply rne_up; [lia |].
      assert (b * ((2 * (k * U + 1) - 1) * D2) < b * (2 * num)); [| nia].
      replace (b * (2 * num)) with (2 * n * W) by lia.
      replace (b * ((2 * (k * U + 1) - 1) * D2)) with (2 * b * k * W + b * D2) by (unfold W; ring).
      assert (b * D2 < 2 * r * W); [| nia].
      unfold W. nia.
    + apply rne_upper; [lia |].
      assert (b * num <= b * ((k + 1) * U * D2)); [| nia].
      replace (b * num) with (n * W) by lia.
      replace (b * ((k + 1) * U * D2)) with (b * (k + 1) * W) by (unfold W; ring).
      nia.
Qed.

Lemma ceil_at_least (R U k : Z) : 0 < U -> k * U <= R -> k <= - ((- R) / U).
Proof.
  intros HU H. assert ((- R) / U <= - k); [| lia].
  apply Z.div_le_upper_bound; nia.
Qed.

Lemma ceil_at_most (R U k : Z) : 0 < U -> R <= k * U -> - ((- R) / U) <= k.
Proof.
  intros HU H. assert (- k <= (- R) / U); [| lia].
  apply Z.div_le_lower_bound; nia.
Qed.

(** The arithmetic behind the multiplication: where the rounded mantissa
    lies when five times the exact one is [(5 * k + r) * W + 2 * M]. *)
Lemma mul_round_arith (num D2 U M k r : Z) :
  0 < D2 -> 0 < U -> 0 <= M -> 0 <= k -> 0 <= r < 5 ->
  5 * num = (5 * k + r) * (D2 * U) + 2 * M ->
  4 * M < 5 * D2 ->
  (k * U <= rne num D2 <= (k + 1) * U)
  /\ (r = 0 -> rne num D2 = k * U)
  /\ (r <> 0 -> 4 <= U -> k * U + 1 <= rne num D2).
Proof.
  intros HD2 HU HM Hk Hr H5 H4M.
  set (W := D2 * U) in *.
  assert (HWpos : 0 < W) by (unfold W; apply Z.mul_pos_pos; assumption).
  set (KW := k * W). set (RW := r * W).
  assert (H5' : 5 * num = 5 * KW + RW + 2 * M) by (unfold KW, RW; lia).
  assert (HRW : 0 <= RW <= 4 * W) by (unfold RW; nia).
  assert (Hlow : k * U <= rne num D2).
  { apply rne_lower; [exact HD2 |].
    replace (k * U * D2) with KW by (unfold KW, W; ring). lia. }
  assert (Hdown : forall extra : Z, RW + 0 <= 5 * extra * W ->
                    rne num D2 <= (k + extra) * U).
  { intros extra Hextra. apply rne_down; [exact HD2 |].
    replace ((2 * ((k + extra) * U) + 1) * D2) with (2 * KW + 2 * extra * W + D2)
      by (unfold KW, W; ring).
    lia. }
  split; [split; [exact Hlow | apply (Hdown 1); lia] |]. split.
  - intros Hr0. apply Z.le_antisymm; [| exact Hlow].
    replace (k * U) with ((k + 0) * U) by ring. apply Hdown.
    unfold RW. rewrite Hr0. lia.
  - intros Hr0 HU4.
    apply rne_up; [exact HD2 |].
    replace ((2 * (k * U + 1) - 1) * D2) with (2 * KW + D2) by (unfold KW, W; ring).
    assert (W <= RW) by (unfold RW; nia).
    assert (4 * D2 <= W) by (unfold W; nia).
    lia.
Qed.

(** Multiplication of a safe integer by the double nearest to [2 ^ j / 5],
    then [Math.ceil]: the result lies between the floor and the ceiling of
    [2 ^ j * n / 5], and it is the ceiling as long as the product has at
    least two bits after the point. *)
Lemma mul_ceil (n j : Z) :
  0 <= j <= 2 -> 0 < n < 2 ^ 53 ->
  let c := Binary64.ceil
             (SFmul 53 1024 (Binary64.of_Z n) (S754_finite false fifth_mantissa (j - 55))) in
  (2 ^ j * n) / 5 <= c <= (2 ^ j * n + 4) / 5
  /\ (n < 2 ^ (53 - j) -> c = (2 ^ j * n + 4) / 5).
Proof.
  intros Hj Hn53.
  destruct (of_Z_normal n Hn53) as (mx & -> & Hmx & Hdx).
  pose proof (Zdigits2_bounds n ltac:(lia)) as Hnb.
  set (dn := Zdigits2 n) in *.
  assert (Hdn : 1 <= dn <= 53).
  { split.
    - destruct (Z.le_gt_cases 1 dn) as [H | H]; [exact H | exfalso].
      rewrite (Z.pow_neg_r 2 (dn - 1)) in Hnb by lia.
      assert (2 ^ dn <= 2 ^ 0) by (apply Z.pow_le_mono_r; lia).
      change (2 ^ 0) with 1 in *. lia.
    - destruct (Z.le_gt_cases dn 53) as [H | H]; [exact H | exfalso].
      assert (2 ^ 53 <= 2 ^ (dn - 1)) by (apply Z.pow_le_mono_r; lia). lia. }
  assert (Hdnj : n < 2 ^ (53 - j) -> dn <= 53 - j).
  { intros Hn. destruct (Z.le_gt_cases dn (53 - j)) as [H | H]; [exact H | exfalso].
    assert (2 ^ (53 - j) <= 2 ^ (dn - 1)) by (apply Z.pow_le_mono_r; lia). lia. }
  set (A := 2 ^ (53 - dn)) in *.
  assert (HA : 0 < A) by (apply Z.pow_pos_nonneg; lia).
  pose proof (Zdigits2_bounds (Zpos mx) ltac:(lia)) as HMx.
  rewrite Hdx in HMx. change (53 - 1) with 52 in HMx.
  cbn [SFmul xorb]. rewrite Pos2Z.inj_mul.
  set (M := Z.pos mx) in *.
  set (C := Z.pos fifth_mantissa).
  assert (HC : 5 * C = 2 ^ 55 + 2) by reflexivity.
  assert (HCb : 2 ^ 52 <= C < 2 ^ 53)
    by (unfold C, fifth_mantissa; split; [discriminate | reflexivity]).
  set (num := M * C) in *.
  assert (HNb : 2 ^ 104 <= num < 2 ^ 106).
  { change (2 ^ 104) with (2 ^ 52 * 2 ^ 52). change (2 ^ 106) with (2 ^ 53 * 2 ^ 53).
    unfold num. nia. }
  assert (HN : 0 < num) by lia.
  set (p := Zdigits2 num - 53).
  assert (Hp : (p = 52 \/ p = 53) /\ num < 2 ^ p * 2 ^ 53).
  { destruct (Z.lt_ge_cases num (2 ^ 105)) as [H | H].
    - unfold p. rewrite (Zdigits2_unique num 105); [ | lia | change (105 - 1) with 104; lia ].
      split; [left; lia |]. change (105 - 53) with 52.
      change (2 ^ 52 * 2 ^ 53) with (2 ^ 105). exact H.
    - unfold p. rewrite (Zdigits2_unique num 106); [ | lia | change (106 - 1) with 105; lia ].
      split; [right; lia |]. change (106 - 53) with 53.
      change (2 ^ 53 * 2 ^ 53) with (2 ^ 106). lia. }
  destruct Hp as [Hp HNp].
  rewrite (round_aux_ceil num (dn - 53 + (j - 55)) loc_Exact num 1);
    [ | lia | lia | lia | apply rs_of_exact; lia | fold p; lia | fold p; lia | fold p; lia ].
  fold p. rewrite Z.mul_1_r.
  set (E := dn - 53 + (j - 55) + p).
  assert (HE : E <= 0) by (unfold E; lia).
  rewrite ceil_scaled_nonpos by lia.
  set (U := 2 ^ (- E)).
  set (D2 := 2 ^ p) in *.
  assert (HD2 : 0 < D2) by (apply Z.pow_pos_nonneg; lia).
  assert (HU : 0 < U) by (apply Z.pow_pos_nonneg; lia).
  assert (HU4 : n < 2 ^ (53 - j) -> 4 <= U).
  { intros Hn. apply Hdnj in Hn. change 4 with (2 ^ 2).
    apply Z.pow_le_mono_r; unfold E; lia. }
  set (W := D2 * U).
  assert (HW : W = A * 2 ^ (55 - j)).
  { unfold W, D2, U, A. rewrite <- !Z.pow_add_r by lia. f_equal. unfold E. lia. }
  set (scaled := 2 ^ j * n).
  assert (HS : 0 <= scaled)
    by (unfold scaled; assert (0 < 2 ^ j) by (apply Z.pow_pos_nonneg; lia); nia).
  assert (H5N : 5 * num = scaled * W + 2 * M).
  { unfold num, scaled. rewrite HW.
    assert (Hpw : 2 ^ j * 2 ^ (55 - j) = 2 ^ 55)
      by (rewrite <- Z.pow_add_r by lia; f_equal; lia).
    rewrite Hmx. nia. }
  assert (H4M : 4 * M < 5 * D2).
  { assert (M * 2 ^ 55 < 5 * D2 * 2 ^ 53) by nia.
    change (2 ^ 55) with (4 * 2 ^ 53) in H. nia. }
  replace (scaled + 4) with (scaled + 5 - 1) by lia.
  rewrite ceil_quotient by lia.
  pose proof (Z.div_mod scaled 5 ltac:(lia)) as Hdm.
  pose proof (Z.mod_pos_bound scaled 5 ltac:(lia)) as Hr.
  set (k := scaled / 5) in *. set (r := scaled mod 5) in *.
  assert (Hk : 0 <= k) by (apply Z.div_pos; lia).
  assert (H5 : 5 * num = (5 * k + r) * (D2 * U) + 2 * M)
    by (rewrite <- Hdm; exact H5N).
  destruct (mul_round_arith num D2 U M k r HD2 HU ltac:(lia) Hk Hr H5 H4M)
    as ([Hlow Hhigh] & Hexact & Hstrict).
  set (R := rne num D2) in *.
  destruct (Z.eqb_spec r 0) as [Hr0 | Hr0].
  - rewrite (Hexact Hr0), ceil_multiple by lia. lia.
  - split.
    + split; [apply ceil_at_least; assumption | apply ceil_at_most; assumption].
    + intros Hn. apply HU4 in Hn. apply ceil_between; [lia |].
      split; [| exact Hhigh]. specialize (Hstrict Hr0 Hn). lia.
Qed.

(** The two literals, as [SpecFloat] reads them. *)
Lemma lit_0_2_bits : Binary64.lit_0_2 = S754_finite false fifth_mantissa (-55).
Proof. vm_compute. reflexivity. Qed.


(** [Math.ceil(a / b)] is the exact ceiling for safe integers. *)
Lemma Math_ceil_div_exact (a b : Z) :
  0 <= a < SAFE_BOUND -> 0 < b < SAFE_BOUND ->
  Math_ceil_div a b = (a + b - 1) / b.
Proof.
  unfold SAFE_BOUND. intros Ha Hb. unfold Math_ceil_div.
  destruct (Z.eq_dec a 0) as [-> | Hne].
  - rewrite of_Z_zero.
    destruct (of_Z_normal b Hb) as (my & -> & _ & _).
    cbn. symmetry. apply Z.div_small. lia.
  - apply div_ceil; lia.
Qed.

(** [Math.ceil(a * 0.2)] is the exact ceiling of [a / 5]. *)
Lemma Math_ceil_mul_0_2_exact (a : Z) :
  0 <= a < SAFE_BOUND -> Math_ceil_mul a Binary64.lit_0_2 = (a + 4) / 5.
Proof.
  unfold SAFE_BOUND. intros Ha. unfold Math_ceil_mul. rewrite lit_0_2_bits.
  destruct (Z.eq_dec a 0) as [-> | Hne].
  - reflexivity.
  - change (-55) with (0 - 55).
    unfold Binary64.mul, Binary64.prec, Binary64.emax.
    destruct (mul_ceil a 0 ltac:(lia) ltac:(lia)) as [_ Hexact].
    rewrite Hexact by (change (53 - 0) with 53; lia).
    change (2 ^ 0) with 1. f_equal. lia.
Qed.



Lemma is_ceiling_div (a b : Z) :
  0 <= a -> 0 < b -> is_ceiling ((a + b - 1) / b) a b.
Proof.
  intros Ha Hb. unfold is_ceiling.
  pose proof (Z.div_mod (a + b - 1) b ltac:(lia)) as Hdm.
  pose proof (Z.mod_pos_bound (a + b - 1) b Hb) as Hr.
  lia.
Qed.

Lemma is_ceiling_unique (c c' a b : Z) :
  0 < b -> is_ceiling c a b -> is_ceiling c' a b -> c = c'.
Proof. unfold is_ceiling. intros Hb H H'. nia. Qed.

(** ** The clean-up of the project table *)

Lemma cleanup_fold_lookup (ks : list string) :
  forall (acc : gmap string UsageRecord) (b : bool) (k : string),
  (fold_left cleanupStep ks (acc, b)).1 !! k =
  match acc !! k with
  | Some proj => if bool_decide (k ∈ ks) && removable k proj then None else Some proj
  | None => None
  end.
Proof.
  induction ks as [| key ks IH]; intros acc b k; cbn [fold_left].
  - rewrite bool_decide_eq_false_2 by apply not_elem_of_nil.
    cbn. destruct (acc !! k); reflexivity.
  - unfold cleanupStep at 2. cbn [fst].
    destruct (decide (k = key)) as [-> | Hne].
    + destruct (acc !! key) as [proj |] eqn:Hkey.
      * destruct (removable key proj) eqn:Hrem.
        -- rewrite IH, lookup_delete_eq.
           rewrite bool_decide_eq_true_2 by apply list_elem_of_here. reflexivity.
        -- rewrite IH, Hkey, Hrem, !andb_false_r. reflexivity.
      * rewrite IH, Hkey. reflexivity.
    + assert (Hmem : bool_decide (k ∈ key :: ks) = bool_decide (k ∈ ks)).
      { apply bool_decide_ext. rewrite elem_of_cons. tauto. }
      rewrite Hmem.
      destruct (acc !! key) as [proj |] eqn:Hkey.
      * destruct (removable key proj) eqn:Hrem.
        -- rewrite IH, lookup_delete_ne by congruence. reflexivity.
        -- rewrite IH. reflexivity.
      * rewrite IH. reflexivity.
Qed.

(** The pass removes exactly the entries that pass the test. *)
Lemma cleanupProjects_lookup (P : gmap string UsageRecord) (k : string) :
  (cleanupProjects P).1 !! k =
  match P !! k with
  | Some proj => if removable k proj then None else Some proj
  | None => None
  end.
Proof.
  unfold cleanupProjects. rewrite cleanup_fold_lookup.
  destruct (P !! k) as [proj |] eqn:Hk; [| reflexivity].
  rewrite bool_decide_eq_true_2; [reflexivity |].
  apply list_elem_of_fmap. exists (k, proj). split; [reflexivity |].
  apply elem_of_map_to_list. exact Hk.
Qed.

Lemma removable_single_coding (key : string) (proj : UsageRecord) (v : Z) :
  queries proj = {[ "Coding" := v ]} ->
  removable key proj =
  negb (v =? 0) && ((v =? expectedFromSeed proj) || String.eqb key "unknown").
Proof.
  intros Hq. unfold removable. rewrite Hq, map_size_singleton, lookup_singleton_eq.
  rewrite bool_decide_eq_true_2 by reflexivity. reflexivity.
Qed.

Lemma removable_several (key : string) (proj : UsageRecord) :
  (1 < size (queries proj))%nat -> removable key proj = false.
Proof.
  intros Hs. unfold removable.
  rewrite bool_decide_eq_false_2 by lia. reflexivity.
Qed.

Lemma expectedFromSeed_exact (proj : UsageRecord) :
  0 <= inputTokens proj + outputTokens proj < SAFE_BOUND ->
  is_ceiling (expectedFromSeed proj) (inputTokens proj + outputTokens proj) 100.
Proof.
  intros Hb. unfold expectedFromSeed.
  rewrite Math_ceil_div_exact by (unfold SAFE_BOUND in *; lia).
  apply is_ceiling_div; lia.
Qed.

(** C1 (amended).  The clean-up pass deletes every project entry whose
    queries map has exactly one key, Coding, with a value that is not zero
    and equals the ceiling of (inputTokens + outputTokens) / 100, the totals
    being safe integers; and it retains every entry whose queries map holds
    more than one category, whatever its totals. *)
Theorem cleanup_removes_seed_signature
    (P : gmap string UsageRecord) (key : string) (proj : UsageRecord) :
  P !! key = Some proj ->
  (forall v : Z,
      queries proj = {[ "Coding" := v ]} ->
      v <> 0 ->
      0 <= inputTokens proj + outputTokens proj < SAFE_BOUND ->
      is_ceiling v (inputTokens proj + outputTokens proj) 100 ->
      (cleanupProjects P).1 !! key = None)
  /\ ((1 < size (queries proj))%nat ->
      (cleanupProjects P).1 !! key = Some proj).
Proof.
  intros Hk. rewrite cleanupProjects_lookup, Hk. split.
  - intros v Hq Hv Hsafe Hceil.
    rewrite (removable_single_coding key proj v Hq).
    pose proof (expectedFromSeed_exact proj Hsafe) as Hexp.
    assert (Hve : v = expectedFromSeed proj)
      by (apply (is_ceiling_unique _ _ _ 100 ltac:(lia) Hceil Hexp)).
    rewrite <- Hve, Z.eqb_refl.
    destruct (Z.eqb_spec v 0) as [E | E]; [contradiction | reflexivity].
  - intros Hs. rewrite removable_several by exact Hs. reflexivity.
Qed.

Lemma cleanup_removes_seed_signature_witness :
  let seeded := {| inputTokens := 120; outputTokens := 480;
                   queries := {[ "Coding" := 6 ]} |} in
  let earned := {| inputTokens := 100; outputTokens := 400;
                   queries := <[ "Debugging" := 2 ]> {[ "Coding" := 5 ]} |} in
  let P : gmap string UsageRecord :=
    <[ "feature/login" := seeded ]> {[ "main" := earned ]} in
  (P !! "feature/login" = Some seeded /\ P !! "main" = Some earned)
  /\ expectedFromSeed earned = 5
  /\ (cleanupProjects P).1 !! "feature/login" = None
  /\ (cleanupProjects P).1 !! "main" = Some earned.
Proof.
  cbv zeta.
  split; [split; vm_compute; reflexivity |].
  split; [vm_compute; reflexivity |].
  split.
  - refine (proj1 (cleanup_removes_seed_signature _ "feature/login" _ _) 6 _ _ _ _).
    + vm_compute. reflexivity.
    + reflexivity.
    + discriminate.
    + cbn. unfold SAFE_BOUND. lia.
    + unfold is_ceiling. cbn. lia.
  - refine (proj2 (cleanup_removes_seed_signature _ "main" _ _) _).
    + vm_compute. reflexivity.
    + vm_compute. lia.
Defined.

(** C1 as stated fails: an entry whose only key is Coding with the value 0,
    which is the ceiling of (0 + 0) / 100, is kept. *)
Lemma cleanup_keeps_zero_coding_entry :
  let proj := {| inputTokens := 0; outputTokens := 0;
                 queries := {[ "Coding" := 0 ]} |} in
  let P : gmap string UsageRecord := {[ "main" := proj ]} in
  P !! "main" = Some proj
  /\ is_ceiling 0 (inputTokens proj + outputTokens proj) 100
  /\ expectedFromSeed proj = 0
  /\ (cleanupProjects P).1 !! "main" = Some proj.
Proof.
  cbv zeta. repeat split; try (vm_compute; reflexivity); cbn; lia.
Qed.

(** C4 (amended).  The clean-up pass deletes the entry under the key
    "unknown" when its queries map has exactly one key, Coding, with a value
    that is not zero, whatever that value and the token totals; it retains
    the entry under "unknown" in every other case. *)
Theorem cleanup_unknown_entry (P : gmap string UsageRecord) (proj : UsageRecord) :
  P !! "unknown" = Some proj ->
  ((size (queries proj) = 1%nat
    /\ exists v : Z, queries proj !! "Coding" = Some v /\ v <> 0) ->
   (cleanupProjects P).1 !! "unknown" = None)
  /\ (~ (size (queries proj) = 1%nat
         /\ exists v : Z, queries proj !! "Coding" = Some v /\ v <> 0) ->
      (cleanupProjects P).1 !! "unknown" = Some proj).
Proof.
  intros Hk. rewrite cleanupProjects_lookup, Hk. unfold removable. split.
  - intros [Hs (v & Hv & Hne)].
    rewrite bool_decide_eq_true_2 by exact Hs. rewrite Hv.
    destruct (Z.eqb_spec v 0) as [E | E]; [contradiction |].
    cbn. rewrite orb_true_r. reflexivity.
  - intros Hnot. case_bool_decide as Hs; [| reflexivity].
    destruct (queries proj !! "Coding") as [v |] eqn:Hv; [| reflexivity].
    destruct (Z.eqb_spec v 0) as [E | E]; [reflexivity |].
    exfalso. apply Hnot. split; [exact Hs |]. exists v. split; [reflexivity | exact E].
Qed.

Lemma cleanup_unknown_entry_witness :
  let proj := {| inputTokens := 7; outputTokens := 9;
                 queries := {[ "Coding" := 42 ]} |} in
  let P : gmap string UsageRecord := {[ "unknown" := proj ]} in
  P !! "unknown" = Some proj
  /\ (cleanupProjects P).1 !! "unknown" = None.
Proof.
  cbv zeta. split.
  - vm_compute. reflexivity.
  - refine (proj1 (cleanup_unknown_entry _ _ _) _).
    + vm_compute. reflexivity.
    + split; [vm_compute; reflexivity |].
      exists 42. split; [vm_compute; reflexivity | discriminate].
Defined.

(** C4 as stated fails: an entry under "unknown" whose queries map is
    {Debugging: 3} is kept. *)
Lemma cleanup_keeps_unknown_debugging_entry :
  let proj := {| inputTokens := 10; outputTokens := 50;
                 queries := {[ "Debugging" := 3 ]} |} in
  let P : gmap string UsageRecord := {[ "unknown" := proj ]} in
  P !! "unknown" = Some proj
  /\ (cleanupProjects P).1 !! "unknown" = Some proj.
Proof.
  cbv zeta. split; vm_compute; reflexivity.
Qed.

(** ** The record the seeding formula produces *)




(** ** One-time seeding *)

Lemma seededTQ_lookup (stats : gmap string (gmap string Z)) (date : string) :
  seededTQ stats !! date =
  (fun models => seedRecord (sumValues models)) <$> stats !! date.
Proof.
  unfold seededTQ. revert date.
  apply (map_fold_weak_ind
           (fun acc (m : gmap string (gmap string Z)) =>
              forall date, acc !! date =
                (fun models => seedRecord (sumValues models)) <$> m !! date)).
  - intros date. rewrite !lookup_empty. reflexivity.
  - intros d models m acc Hfresh IH date.
    destruct (decide (d = date)) as [-> | Hne].
    + rewrite !lookup_insert_eq. reflexivity.
    + rewrite !lookup_insert_ne by exact Hne. apply IH.
Qed.

Lemma seededTQ_fmap (stats : gmap string (gmap string Z)) :
  seededTQ stats = (fun models => seedRecord (sumValues models)) <$> stats.
Proof.
  apply map_eq. intros date. rewrite seededTQ_lookup, lookup_fmap. reflexivity.
Qed.

Lemma seedTokenQuery_flag (stats : gmap string (gmap string Z))
    (tq : gmap string UsageRecord) :
  (seedTokenQuery stats tq).2 = true <-> tq = ∅ /\ stats <> ∅.
Proof.
  unfold seedTokenQuery.
  rewrite <- (map_size_empty_iff tq), <- (map_size_non_empty_iff stats).
  repeat case_bool_decide; cbn; split; intros; try discriminate; try reflexivity; lia.
Qed.

(** C6.  The seeding pass seeds exactly when the token/query table is empty
    and the model-count table is not; what it then writes is the seeded
    record of every date of the model-count table; a token/query table that
    is not empty is returned as it is; and a second pass over the result of
    a first one seeds nothing and returns the same table. *)
Theorem seeding_guard_and_idempotence
    (stats : gmap string (gmap string Z)) (tq : gmap string UsageRecord) :
  let once := seedTokenQuery stats tq in
  (once.2 = true <-> tq = ∅ /\ stats <> ∅)
  /\ (once.2 = true ->
      forall date : string,
        once.1 !! date =
        (fun models => seedRecord (sumValues models)) <$> stats !! date)
  /\ (once.2 = false -> once.1 = tq)
  /\ (tq <> ∅ -> once = (tq, false))
  /\ seedTokenQuery stats once.1 = (once.1, false).
Proof.
  intros once.
  pose proof (seedTokenQuery_flag stats tq) as Hflag. fold once in Hflag.
  assert (Hshape : once = (seededTQ stats, true) /\ tq = ∅ /\ stats <> ∅
                   \/ once = (tq, false) /\ ~ (tq = ∅ /\ stats <> ∅)).
  { destruct (once.2) eqn:E.
    - left. split; [| apply Hflag; reflexivity].
      unfold once, seedTokenQuery in *.
      destruct (bool_decide _ && bool_decide _); [reflexivity | discriminate].
    - right. split.
      + unfold once, seedTokenQuery in *.
        destruct (bool_decide _ && bool_decide _); [discriminate | reflexivity].
      + intros H. apply Hflag in H. discriminate. }
  clearbody once.
  destruct Hshape as [(-> & Htq & Hstats) | (-> & Hnot)]; cbn [fst snd].
  - split; [tauto |]. split; [intros _ date; apply seededTQ_lookup |].
    split; [discriminate |]. split; [intros H; contradiction |].
    unfold seedTokenQuery.
    rewrite (bool_decide_eq_false_2 (size (seededTQ stats) = 0%nat)); [reflexivity |].
    rewrite seededTQ_fmap, map_size_fmap. apply map_size_non_empty_iff. exact Hstats.
  - split; [split; [discriminate | intros H; contradiction] |].
    split; [discriminate |]. split; [reflexivity |]. split; [reflexivity |].
    unfold seedTokenQuery.
    destruct (bool_decide (size tq = 0%nat) && bool_decide (0 < size stats)%nat) eqn:E;
      [| reflexivity].
    exfalso. apply Hnot. apply andb_true_iff in E. destruct E as [E1 E2].
    apply bool_decide_eq_true in E1, E2.
    split; [apply map_size_empty_iff; exact E1 |].
    apply map_size_non_empty_iff. lia.
Qed.

(** A model-count table with one date seeds one record; a second pass
    leaves it alone. *)
Example seeding_example :
  let stats : gmap string (gmap string Z) :=
    {[ "2024-01-01" := <[ "Gemini 3 Flash" := 130 ]> {[ defaultModel := 120 ]} ]} in
  let once := seedTokenQuery stats ∅ in
  once.2 = true
  /\ once.1 = {[ "2024-01-01" := {| inputTokens := 50; outputTokens := 200;
                                    queries := {[ "Coding" := 3 ]} |} ]}
  /\ seedTokenQuery stats once.1 = (once.1, false).
Proof. cbv zeta. repeat split; vm_compute; reflexivity. Qed.

(** ** Legacy migration *)

Section MigrationFacts.

Import Migration.
Local Open Scope list_scope.

Lemma keys_app (o1 o2 : jsobject) : keys (o1 ++ o2) = keys o1 ++ keys o2.
Proof. apply map_app. Qed.

Lemma set_fresh (o : jsobject) (k : string) (v : jsval) :
  ~ In k (keys o) -> set o k v = (o ++ (k, v) :: nil)%list.
Proof.
  induction o as [| [k' v'] o IH]; intros Hk; cbn [set app].
  - reflexivity.
  - destruct (String.eqb_spec k' k) as [-> | Hne].
    + exfalso. apply Hk. left. reflexivity.
    + rewrite IH; [reflexivity |]. intros Hin. apply Hk. right. exact Hin.
Qed.

Lemma get_first (pre suf : jsobject) (k : string) (v : jsval) :
  ~ In k (keys pre) -> get (pre ++ (k, v) :: suf) k = v.
Proof.
  induction pre as [| [k' v'] pre IH]; intros Hk; cbn [get app].
  - rewrite String.eqb_refl. reflexivity.
  - destruct (String.eqb_spec k' k) as [-> | Hne].
    + exfalso. apply Hk. left. reflexivity.
    + apply IH. intros Hin. apply Hk. right. exact Hin.
Qed.

Lemma keys_wrapped (o : jsobject) : keys (wrapped o) = keys o.
Proof.
  unfold keys, wrapped. rewrite map_map. apply map_ext. intros [k v]. reflexivity.
Qed.

Lemma wrapped_app (o1 o2 : jsobject) :
  wrapped (o1 ++ o2) = (wrapped o1 ++ wrapped o2)%list.
Proof. apply map_app. Qed.

(** On an object (keys without repetition) the loop rewrites entry by entry. *)
Lemma wrap_loop (rawStats : jsobject) :
  forall pre suf : jsobject,
  rawStats = (pre ++ suf)%list -> List.NoDup (keys rawStats) ->
  fold_left (wrap rawStats) (keys suf) (wrapped pre) = wrapped rawStats.
Proof.
  intros pre suf. revert pre.
  induction suf as [| [d v] suf IH]; intros pre Hraw Hnd; cbn [keys map fold_left].
  - rewrite app_nil_r in Hraw. congruence.
  - assert (Hfresh : ~ In d (keys pre)).
    { rewrite Hraw, keys_app in Hnd. cbn [keys map] in Hnd.
      apply NoDup_remove_2 in Hnd. intros Hin. apply Hnd.
      apply in_or_app. left. exact Hin. }
    unfold wrap at 2.
    rewrite set_fresh by (rewrite keys_wrapped; exact Hfresh).
    rewrite Hraw at 2. rewrite get_first by exact Hfresh.
    cbn [fst]. change (map fst suf) with (keys suf).
    change (wrapped pre ++ (d, JObj ((defaultModel, v) :: nil)) :: nil)%list
      with (wrapped pre ++ wrapped ((d, v) :: nil))%list.
    rewrite <- wrapped_app.
    apply IH; [| exact Hnd].
    rewrite Hraw, <- app_assoc. reflexivity.
Qed.

Lemma migrate_legacy (rawStats : jsobject) :
  List.NoDup (keys rawStats) -> (migrate rawStats).2 = true ->
  (migrate rawStats).1 = wrapped rawStats.
Proof.
  intros Hnd. unfold migrate.
  destruct (keys rawStats) as [| d0 rest] eqn:Hkeys; [discriminate |].
  destruct (is_number (get rawStats d0)); [| discriminate].
  intros _. cbn [fst]. rewrite <- Hkeys.
  apply (wrap_loop rawStats nil rawStats); [reflexivity | rewrite Hkeys; exact Hnd].
Qed.

(** Once the first key holds an object, it keeps holding one. *)
Lemma set_headed (d0 d : string) (fields : list (string * jsval)) (o : jsobject) :
  headed d0 o -> headed d0 (set o d (JObj fields)).
Proof.
  intros (f & rest & ->). cbn [set].
  destruct (String.eqb_spec d0 d) as [-> | Hne]; eexists _, _; reflexivity.
Qed.

Lemma wrap_fold_headed (rawStats : jsobject) (d0 : string) (dates : list string) :
  forall stats, headed d0 stats -> headed d0 (fold_left (wrap rawStats) dates stats).
Proof.
  induction dates as [| d dates IH]; intros stats Hs; cbn [fold_left].
  - exact Hs.
  - apply IH. apply set_headed. exact Hs.
Qed.

Lemma migrate_headed (o : jsobject) (d0 : string) :
  headed d0 o -> migrate o = (o, false).
Proof.
  intros (f & rest & ->). unfold migrate. cbn [keys map get].
  rewrite String.eqb_refl. reflexivity.
Qed.

Lemma migrate_twice (rawStats : jsobject) :
  migrate (migrate rawStats).1 = ((migrate rawStats).1, false).
Proof.
  unfold migrate at 2 3.
  destruct (keys rawStats) as [| d0 rest] eqn:Hkeys.
  - cbn [fst]. unfold migrate. rewrite Hkeys. reflexivity.
  - destruct (is_number (get rawStats d0)) eqn:Hnum; cbn [fst].
    + apply (migrate_headed _ d0). cbn [fold_left].
      apply wrap_fold_headed. unfold wrap. cbn [set]. eexists _, _. reflexivity.
    + unfold migrate. rewrite Hkeys, Hnum. reflexivity.
Qed.

Lemma totalTokens_cons (k : string) (v : jsval) (o : jsobject) :
  totalTokens ((k, v) :: o) = total v + totalTokens o.
Proof. reflexivity. Qed.

Lemma totalTokens_wrapped (o : jsobject) : totalTokens (wrapped o) = totalTokens o.
Proof.
  induction o as [| [k v] o IH]; [reflexivity |].
  change (wrapped ((k, v) :: o))
    with ((k, JObj ((defaultModel, v) :: nil)) :: wrapped o).
  rewrite !totalTokens_cons, IH.
  change (total (JObj ((defaultModel, v) :: nil))) with (total v + 0). lia.
Qed.

(** C5.  Running the legacy migration on the table it has produced changes
    nothing and writes nothing: twice is the same as once.  On a table whose
    keys are distinct, as those of an object are, the migration rewrites a
    legacy table entry by entry, date -> value becoming
    date -> {defaultModel: value}, and the sum of all the token counts in the
    table is the same before and after. *)
Theorem migration_idempotent_and_sum_preserving (rawStats : jsobject) :
  migrate (migrate rawStats).1 = ((migrate rawStats).1, false)
  /\ (List.NoDup (keys rawStats) ->
      ((migrate rawStats).2 = true -> (migrate rawStats).1 = wrapped rawStats)
      /\ ((migrate rawStats).2 = false -> (migrate rawStats).1 = rawStats)
      /\ totalTokens (migrate rawStats).1 = totalTokens rawStats).
Proof.
  split; [apply migrate_twice |].
  intros Hnd.
  assert (Hkeep : (migrate rawStats).2 = false -> (migrate rawStats).1 = rawStats).
  { unfold migrate. destruct (keys rawStats) as [| d0 rest]; [reflexivity |].
    destruct (is_number (get rawStats d0)); [discriminate | reflexivity]. }
  split; [apply migrate_legacy; exact Hnd |]. split; [exact Hkeep |].
  destruct ((migrate rawStats).2) eqn:E.
  - rewrite migrate_legacy by assumption. apply totalTokens_wrapped.
  - rewrite Hkeep by reflexivity. reflexivity.
Qed.

(** A legacy table of two dates, migrated once and twice. *)
Example migration_example :
  let legacy := ("2024-01-01", JNum 120) :: ("2024-01-02", JNum 80) :: nil in
  migrate legacy
  = (("2024-01-01", JObj ((defaultModel, JNum 120) :: nil))
     :: ("2024-01-02", JObj ((defaultModel, JNum 80) :: nil)) :: nil, true)
  /\ migrate (migrate legacy).1 = ((migrate legacy).1, false)
  /\ totalTokens legacy = 200
  /\ totalTokens (migrate legacy).1 = 200.
Proof. cbv zeta. repeat split; vm_compute; reflexivity. Qed.

End MigrationFacts.

(** ** The edit listener *)

Lemma processChange_small (env : ChangeEnv) (m : Monitor) (text : string) :
  Z.of_nat (String.length text) <= AI_THRESHOLD ->
  processChange env m text = (m, nil).
Proof.
  intros Hlen. unfold processChange.
  destruct (Z.ltb_spec AI_THRESHOLD (Z.of_nat (String.length text))); [lia | reflexivity].
Qed.

(** C8.  When every change of an edit event inserts at most 30 characters,
    the listener returns the monitor it was given (the three tables, the
    session counters and the branch cache included) and shows nothing: no
    status-bar update, no classification, no live update. *)
Theorem small_edits_change_nothing
    (m : Monitor) (contentChanges : list (ChangeEnv * string)) :
  Forall (fun change => Z.of_nat (String.length change.2) <= AI_THRESHOLD)
         contentChanges ->
  onDidChangeTextDocument m contentChanges = (m, nil).
Proof.
  induction 1 as [| [env text] rest Hsmall _ IH]; cbn [onDidChangeTextDocument].
  - reflexivity.
  - rewrite (processChange_small env m text Hsmall), IH. reflexivity.
Qed.

Lemma small_edits_change_nothing_witness :
  let event := (sample_env, "const x = 1;") :: (sample_env, "return x + 1;") :: nil in
  Forall (fun change => Z.of_nat (String.length change.2) <= AI_THRESHOLD) event
  /\ onDidChangeTextDocument sample_monitor event = (sample_monitor, nil).
Proof.
  cbv zeta.
  assert (H : Forall (fun change : ChangeEnv * string =>
                        Z.of_nat (String.length change.2) <= AI_THRESHOLD)
                ((sample_env, "const x = 1;") :: (sample_env, "return x + 1;") :: nil)).
  { repeat constructor; cbn; unfold AI_THRESHOLD; lia. }
  split; [exact H |].
  exact (small_edits_change_nothing sample_monitor _ H).
Defined.

Lemma recordQuery_lookup (key : string) (estIn estOut : Z) (queryType : string)
    (table : gmap string UsageRecord) :
  recordQuery key estIn estOut queryType table !! key =
  Some {| inputTokens := inputTokens (default freshRecord (table !! key)) + estIn;
          outputTokens := outputTokens (default freshRecord (table !! key)) + estOut;
          queries := <[queryType :=
                         or_zero (queries (default freshRecord (table !! key)) !! queryType) + 1]>
                       (queries (default freshRecord (table !! key))) |}.
Proof. unfold recordQuery. apply lookup_insert_eq. Qed.

Lemma estimates_exact (newChars : Z) :
  0 <= newChars < SAFE_BOUND ->
  estimatedOutputTokens newChars = (newChars + 3) / 4
  /\ estimatedInputTokens (estimatedOutputTokens newChars)
     = ((newChars + 3) / 4 + 4) / 5.
Proof.
  intros Hn. unfold estimatedOutputTokens, estimatedInputTokens.
  rewrite Math_ceil_div_exact by (unfold SAFE_BOUND in *; lia).
  replace (newChars + 4 - 1) with (newChars + 3) by lia.
  split; [reflexivity |].
  apply Math_ceil_mul_0_2_exact.
  pose proof (is_ceiling_div newChars 4 ltac:(lia) ltac:(lia)) as Hc.
  replace (newChars + 4 - 1) with (newChars + 3) in Hc by lia.
  unfold is_ceiling in Hc. lia.
Qed.



(** The scenario of a 120-character text with the word "bug", typed on
    2024-01-01 on the branch main into a monitor that had counted 36 tokens
    that day: 30 output and 6 input tokens, 36 more tokens for the default
    model, and one Debugging query for the date and for the branch. *)
Example end_to_end_scenario :
  let after := processChange sample_env sample_monitor sample_text in
  let gs := globalState after.1 in
  daily_usage_stats gs !! "2024-01-01" = Some {[ defaultModel := 72 ]}
  /\ daily_token_query_stats gs !! "2024-01-01"
     = Some {| inputTokens := 6; outputTokens := 30;
               queries := {[ "Debugging" := 1 ]} |}
  /\ project_usage_stats gs !! "main"
     = Some {| inputTokens := 6; outputTokens := 30;
               queries := {[ "Debugging" := 1 ]} |}
  /\ aiUsageCount after.1 = 4
  /\ aiGeneratedChars after.1 = 320
  /\ exists update : Effect,
       after.2 = StatusBar 72 :: Classified sample_text "Debugging" :: update :: nil.
Proof.
  cbv zeta. repeat split; try (vm_compute; reflexivity).
  eexists. vm_compute. reflexivity.
Qed.

(** ** The branch cache *)

Lemma cacheFresh_sentinel (now checked : Z) :
  cacheFresh {| cachedBranch := "no-git-repo"; branchLastChecked := checked |} now = false.
Proof. unfold cacheFresh. cbn. apply andb_false_r. Qed.

(** C2 (amended).  When the fast source gives nothing, the cache is not
    fresh, a workspace folder is open and the command fails, the call
    returns the sentinel "no-git-repo", stores it in the cache and sets the
    staleness timer to the current time.  The sentinel is never served from
    the cache: in every later call in which the fast source gives nothing,
    however soon, the command is run again if a workspace folder is open
    (and its answer, or the sentinel if it fails again, is returned), and
    the timer is set again.  Only a cached value other than "unknown" and
    "no-git-repo" that is less than 10 seconds old is returned without
    running the command, the cache being left as it is. *)
Theorem failed_lookup_is_retried (c : BranchCache) (env : BranchEnv) :
  truthy_string (headName env) = None ->
  cacheFresh c (clock env) = false ->
  is_Some (truthy_string (wsFolder env)) ->
  gitRevParse env = None ->
  let failed := getCurrentBranch c env in
  branch failed = "no-git-repo"
  /\ execInvoked failed = true
  /\ cacheAfter failed =
     {| cachedBranch := "no-git-repo"; branchLastChecked := clock env |}
  /\ (forall later : BranchEnv,
        truthy_string (headName later) = None ->
        let again := getCurrentBranch (cacheAfter failed) later in
        branchLastChecked (cacheAfter again) = clock later
        /\ (is_Some (truthy_string (wsFolder later)) ->
            execInvoked again = true
            /\ branch again = default "no-git-repo" (gitRevParse later))
        /\ (truthy_string (wsFolder later) = None ->
            execInvoked again = false /\ branch again = "no-git-repo"))
  /\ (forall (valid : BranchCache) (later : BranchEnv),
        truthy_string (headName later) = None ->
        clock later - branchLastChecked valid < 10000 ->
        cachedBranch valid <> "unknown" ->
        cachedBranch valid <> "no-git-repo" ->
        getCurrentBranch valid later =
        {| branch := cachedBranch valid; cacheAfter := valid; execInvoked := false |}).
Proof.
  intros Hfast Hstale [folder Hfolder] Hfail failed.
  assert (Hfailed : failed =
    {| branch := "no-git-repo";
       cacheAfter := {| cachedBranch := "no-git-repo"; branchLastChecked := clock env |};
       execInvoked := true |}).
  { unfold failed, getCurrentBranch. rewrite Hfast, Hstale, Hfolder, Hfail. reflexivity. }
  clearbody failed. subst failed. cbn [branch execInvoked cacheAfter].
  split; [reflexivity |]. split; [reflexivity |]. split; [reflexivity |]. split.
  - intros later Hlater. unfold getCurrentBranch.
    rewrite Hlater, cacheFresh_sentinel.
    destruct (truthy_string (wsFolder later)) as [f |] eqn:Hws.
    + destruct (gitRevParse later) as [out |]; cbn;
        (split; [reflexivity |]); (split; [intros _; split; reflexivity |]);
        discriminate.
    + cbn. split; [reflexivity |]. split; [intros [f Hf]; discriminate |].
      intros _. split; reflexivity.
  - intros valid later Hlater Hyoung Hu Hn. unfold getCurrentBranch.
    rewrite Hlater.
    assert (Hfresh : cacheFresh valid (clock later) = true).
    { unfold cacheFresh.
      apply andb_true_intro; split; [apply andb_true_intro; split |].
      - apply Z.ltb_lt. exact Hyoung.
      - apply negb_true_iff. apply String.eqb_neq. exact Hu.
      - apply negb_true_iff. apply String.eqb_neq. exact Hn. }
    rewrite Hfresh. reflexivity.
Qed.

Lemma failed_lookup_is_retried_witness :
  let env := {| headName := None; clock := 50000;
                wsFolder := Some "/home/dev/notes"; gitRevParse := None |} in
  let later := {| headName := None; clock := 51000;
                  wsFolder := Some "/home/dev/notes"; gitRevParse := None |} in
  let failed := getCurrentBranch initialBranchCache env in
  (truthy_string (headName env) = None
   /\ cacheFresh initialBranchCache (clock env) = false
   /\ is_Some (truthy_string (wsFolder env))
   /\ gitRevParse env = None)
  /\ cachedBranch (cacheAfter failed) = "no-git-repo"
  /\ branchLastChecked (cacheAfter failed) = 50000
  /\ execInvoked (getCurrentBranch (cacheAfter failed) later) = true.
Proof.
  cbv zeta.
  assert (H3 : is_Some (truthy_string (Some "/home/dev/notes")))
    by (eexists; reflexivity).
  split; [repeat split; try reflexivity; exact H3 |].
  destruct (failed_lookup_is_retried initialBranchCache
              {| headName := None; clock := 50000;
                 wsFolder := Some "/home/dev/notes"; gitRevParse := None |}
              eq_refl eq_refl H3 eq_refl)
    as (_ & _ & Hcache & Hretry & _).
  split; [rewrite Hcache; reflexivity |]. split; [rewrite Hcache; reflexivity |].
  apply (Hretry {| headName := None; clock := 51000;
                   wsFolder := Some "/home/dev/notes"; gitRevParse := None |} eq_refl).
  exact H3.
Defined.

(** C2 as stated fails: one second after a failed lookup has cached the
    sentinel, with the fast source still giving nothing, the command is run
    again, and the call returns what it prints. *)
Lemma cached_failure_is_not_served :
  let env := {| headName := None; clock := 50000;
                wsFolder := Some "/home/dev/notes"; gitRevParse := None |} in
  let later := {| headName := None; clock := 51000;
                  wsFolder := Some "/home/dev/notes"; gitRevParse := Some "main" |} in
  let failed := getCurrentBranch initialBranchCache env in
  let again := getCurrentBranch (cacheAfter failed) later in
  execInvoked failed = true
  /\ cacheAfter failed = {| cachedBranch := "no-git-repo"; branchLastChecked := 50000 |}
  /\ truthy_string (headName later) = None
  /\ clock later - branchLastChecked (cacheAfter failed) = 1000
  /\ execInvoked again = true
  /\ branch again = "main".
Proof. cbv zeta. repeat split. Qed.

(** ** The query classifier *)

(** The order of the rules: an error keyword wins over code syntax, and a
    text that meets no rule is a general question. *)
Example classification_priority :
  classifyQuery "error in function(){}" = "Debugging"
  /\ classifyQuery "where is the README" = "Search"
  /\ classifyQuery "update the readme" = "Documentation"
  /\ classifyQuery "Refactor the loader" = "Planning"
  /\ classifyQuery "const total = a + b" = "Coding"
  /\ classifyQuery "items[0]" = "Coding"
  /\ classifyQuery "hello world" = "General Question".
Proof. repeat split; vm_compute; reflexivity. Qed.

(** C3 (what the code does instead).  A text that consists of a
    documentation tag followed by plain words, with no keyword of the
    Debugging or Search rules, is not classified as Documentation: the word
    boundary the pattern demands before "@" or "/" exists only after a
    letter, a digit or an underscore.  Such a text falls through to the
    later rules ("@return" meets the Coding keyword "return") or to the
    default.  The tags are found when they are glued to a preceding word
    character. *)
Theorem documentation_tags_need_a_word_before :
  (test debugging_re (toLowerCase "@param count the number of items") = false
   /\ test search_re (toLowerCase "@param count the number of items") = false
   /\ test documentation_re (toLowerCase "@param count the number of items") = false
   /\ classifyQuery "@param count the number of items" = "General Question")
  /\ classifyQuery "@return the number of items" = "Coding"
  /\ classifyQuery "@description adds two numbers" = "General Question"
  /\ classifyQuery "/** adds two numbers" = "General Question"
  /\ classifyQuery "adds two numbers @param count" = "General Question"
  /\ classifyQuery "count@param the number of items" = "Documentation"
  /\ classifyQuery "x/**y" = "Documentation".
Proof. repeat split; vm_compute; reflexivity. Qed.

(** ** Export and upload *)

Lemma exported_fields (gs : GlobalState) (userEmail : string) (now : Z) :
  let incoming := (getExportData gs userEmail now).1 in
  (exists id : string, incoming !! "userId" = Some (FStr id))
  /\ (exists email : string, incoming !! "email" = Some (FStr email))
  /\ incoming !! "avatarUrl" = None.
Proof.
  cbv zeta. unfold getExportData. cbn [fst]. split; [| split].
  - eexists. apply lookup_insert_eq.
  - eexists. rewrite lookup_insert_ne by discriminate. apply lookup_insert_eq.
  - rewrite !lookup_insert_ne by discriminate. apply lookup_empty.
Qed.




(** * Further properties

    Properties of parts of the code that the properties above leave out, and
    of the way the parts work together. *)

(** ** More on the branch cache *)

(** X1.  On every path, [getCurrentBranch] returns the value it leaves in
    the cache.  It runs the git command exactly when the Git extension
    gives no branch name, the cache is not fresh and a workspace folder is
    open.  The staleness timer is left alone when the Git extension answers
    or the cache is served, and is set to the current time otherwise; and
    without a workspace folder the call returns what was cached before. *)
Theorem branch_result_is_cached (c : BranchCache) (env : BranchEnv) :
  let r := getCurrentBranch c env in
  branch r = cachedBranch (cacheAfter r)
  /\ (execInvoked r = true <->
      truthy_string (headName env) = None
      /\ cacheFresh c (clock env) = false
      /\ is_Some (truthy_string (wsFolder env)))
  /\ (is_Some (truthy_string (headName env)) \/ cacheFresh c (clock env) = true ->
      branchLastChecked (cacheAfter r) = branchLastChecked c)
  /\ (truthy_string (headName env) = None -> cacheFresh c (clock env) = false ->
      branchLastChecked (cacheAfter r) = clock env)
  /\ (truthy_string (headName env) = None ->
      truthy_string (wsFolder env) = None ->
      branch r = cachedBranch c).
Proof.
  cbv zeta. unfold getCurrentBranch.
  destruct (truthy_string (headName env)) as [b |] eqn:Hfast; cbn.
  - repeat split; try reflexivity; try discriminate.
    + intros (H & _); discriminate.
  - destruct (cacheFresh c (clock env)) eqn:Hfresh; cbn.
    + repeat split; try reflexivity; try discriminate.
      * intros (_ & H & _); discriminate.
    + destruct (truthy_string (wsFolder env)) as [f |] eqn:Hws.
      * destruct (gitRevParse env) as [out |]; cbn;
          repeat split; try reflexivity; try discriminate; eauto;
          intros [[x Hx] | Hx]; discriminate.
      * cbn. repeat split; try reflexivity; try discriminate.
        -- intros (_ & _ & [x Hx]); discriminate.
        -- intros [[x Hx] | Hx]; discriminate.
Qed.

(** X2.  When the git command succeeds with a name other than the two
    sentinels, the name is cached with the time of the call; a later call
    that gets nothing from the Git extension returns the cached name without
    running the command as long as less than 10 seconds have passed, leaving
    the cache as it is, and from 10 seconds on it runs the command again
    when a workspace folder is open. *)
Theorem successful_lookup_is_cached (c : BranchCache) (env later : BranchEnv) (out : string) :
  truthy_string (headName env) = None ->
  cacheFresh c (clock env) = false ->
  is_Some (truthy_string (wsFolder env)) ->
  gitRevParse env = Some out ->
  out <> "unknown" -> out <> "no-git-repo" ->
  truthy_string (headName later) = None ->
  let first := getCurrentBranch c env in
  first = {| branch := out;
             cacheAfter := {| cachedBranch := out; branchLastChecked := clock env |};
             execInvoked := true |}
  /\ (clock later - clock env < 10000 ->
      getCurrentBranch (cacheAfter first) later =
      {| branch := out; cacheAfter := cacheAfter first; execInvoked := false |})
  /\ (10000 <= clock later - clock env ->
      is_Some (truthy_string (wsFolder later)) ->
      let again := getCurrentBranch (cacheAfter first) later in
      execInvoked again = true
      /\ branch again = default "no-git-repo" (gitRevParse later)
      /\ branchLastChecked (cacheAfter again) = clock later).
Proof.
  intros Hfast Hstale [f Hws] Hout Hu Hn Hlater first.
  assert (Hfirst : first = {| branch := out;
             cacheAfter := {| cachedBranch := out; branchLastChecked := clock env |};
             execInvoked := true |}).
  { unfold first, getCurrentBranch. rewrite Hfast, Hstale, Hws, Hout. reflexivity. }
  clearbody first. subst first. cbn [cacheAfter].
  split; [reflexivity |].
  apply String.eqb_neq in Hu, Hn.
  split.
  - intros Hyoung. unfold getCurrentBranch. rewrite Hlater.
    unfold cacheFresh. cbn [cachedBranch branchLastChecked].
    rewrite Hu, Hn. apply Z.ltb_lt in Hyoung. rewrite Hyoung. reflexivity.
  - intros Hold [g Hg]. cbv zeta. unfold getCurrentBranch. rewrite Hlater.
    unfold cacheFresh. cbn [cachedBranch branchLastChecked].
    apply Z.ltb_ge in Hold. rewrite Hold. cbn [andb]. rewrite Hg.
    destruct (gitRevParse later); cbn; repeat split.
Qed.

Lemma successful_lookup_is_cached_witness :
  let env := {| headName := None; clock := 50000;
                wsFolder := Some "/home/dev/app"; gitRevParse := Some "feature/login" |} in
  let later := {| headName := None; clock := 59999;
                  wsFolder := Some "/home/dev/app"; gitRevParse := Some "main" |} in
  (truthy_string (headName env) = None
   /\ cacheFresh initialBranchCache (clock env) = false
   /\ is_Some (truthy_string (wsFolder env)))
  /\ branch (getCurrentBranch (cacheAfter (getCurrentBranch initialBranchCache env)) later)
     = "feature/login"
  /\ execInvoked (getCurrentBranch (cacheAfter (getCurrentBranch initialBranchCache env)) later)
     = false.
Proof.
  cbv zeta.
  assert (H3 : is_Some (truthy_string (Some "/home/dev/app"))) by (eexists; reflexivity).
  split; [repeat split; try reflexivity; exact H3 |].
  destruct (successful_lookup_is_cached initialBranchCache
              {| headName := None; clock := 50000;
                 wsFolder := Some "/home/dev/app"; gitRevParse := Some "feature/login" |}
              {| headName := None; clock := 59999;
                 wsFolder := Some "/home/dev/app"; gitRevParse := Some "main" |}
              "feature/login" eq_refl eq_refl H3 eq_refl
              ltac:(discriminate) ltac:(discriminate) eq_refl)
    as (_ & Hserved & _).
  cbn [clock] in Hserved. rewrite Hserved by lia. split; reflexivity.
Defined.

(** ** More on the query classifier *)

Lemma lower_unit_idem (c : ascii) : lower_unit (lower_unit c) = lower_unit c.
Proof. destruct c as [[] [] [] [] [] [] [] []]; reflexivity. Qed.


Lemma punctuation_lower (c : ascii) :
  mem_unit (lower_unit c) "{};()[]" = mem_unit c "{};()[]".
Proof. destruct c as [[] [] [] [] [] [] [] []]; reflexivity. Qed.

Lemma toLowerCase_idem (s : string) : toLowerCase (toLowerCase s) = toLowerCase s.
Proof. induction s as [| c s IH]; cbn; [reflexivity |]. rewrite lower_unit_idem, IH. reflexivity. Qed.


Lemma search_punctuation_lower (s : string) :
  forall prev prev' : option ascii,
  search punctuation_re prev' (toLowerCase s) = search punctuation_re prev s.
Proof.
  induction s as [| c s IH]; intros prev prev'; [reflexivity |].
  cbn [toLowerCase search]. rewrite (IH (Some c) (Some (lower_unit c))).
  f_equal. unfold matches_at, punctuation_re. cbn [run snd].
  rewrite punctuation_lower. destruct (mem_unit c "{};()[]"); reflexivity.
Qed.

(** X3.  The classification does not depend on the case of the letters:
    a text and its lower-case form get the same query type, and so do any
    two texts with the same lower-case form (the punctuation test, the only
    one made on the text as typed, looks for characters that lower-casing
    neither produces nor changes). *)
Theorem classifyQuery_ignores_case (text : string) :
  classifyQuery (toLowerCase text) = classifyQuery text
  /\ forall other : string,
       toLowerCase other = toLowerCase text -> classifyQuery other = classifyQuery text.
Proof.
  assert (H : forall t, classifyQuery t =
            if test debugging_re (toLowerCase t) then "Debugging"
            else if test search_re (toLowerCase t) then "Search"
            else if test documentation_re (toLowerCase t) then "Documentation"
            else if test planning_re (toLowerCase t) then "Planning"
            else if test coding_re (toLowerCase t) || test punctuation_re (toLowerCase t)
                 then "Coding"
            else "General Question").
  { intros t. unfold classifyQuery. cbv zeta.
    replace (test punctuation_re (toLowerCase t)) with (test punctuation_re t)
      by (symmetry; apply (search_punctuation_lower t None None)).
    reflexivity. }
  split.
  - rewrite (H (toLowerCase text)), (H text), toLowerCase_idem. reflexivity.
  - intros other Heq. rewrite (H other), (H text), Heq. reflexivity.
Qed.

(** A keyword that stands as a word of its own is found wherever it is. *)










Lemma classifyQuery_in_types (text : string) : In (classifyQuery text) QUERY_TYPES.
Proof.
  unfold classifyQuery, QUERY_TYPES. cbv zeta.
  repeat match goal with |- context [if ?b then _ else _] => destruct b end;
    cbn; tauto.
Qed.

(** ** Sums over a table *)

Section Sums.

Context {V : Type} (f : V -> Z).


End Sums.




(** ** More on the edit listener: one change *)


Lemma processChange_big (env : ChangeEnv) (m : Monitor) (text : string) :
  AI_THRESHOLD < Z.of_nat (String.length text) ->
  let newChars := Z.of_nat (String.length text) in
  let estOut := estimatedOutputTokens newChars in
  let estIn := estimatedInputTokens estOut in
  let gs := globalState m in
  let currentStats := recordUsage (dateKey env) (estIn + estOut) (daily_usage_stats gs) in
  let queryType := classifyQuery text in
  let tqStats :=
    recordQuery (dateKey env) estIn estOut queryType (daily_token_query_stats gs) in
  let tracked := getCurrentBranch (branchCache m) (trackingEnv env) in
  let projStats :=
    recordQuery (branch tracked) estIn estOut queryType (project_usage_stats gs) in
  let live := getCurrentBranch (cacheAfter tracked) (liveEnv env) in
  processChange env m text =
  ({| aiUsageCount := aiUsageCount m + 1;
      aiGeneratedChars := aiGeneratedChars m + newChars;
      globalState := {| daily_usage_stats := currentStats;
                        daily_token_query_stats := tqStats;
                        project_usage_stats := projStats;
                        antigravity_userId := antigravity_userId gs |};
      branchCache := if activePanel m then cacheAfter live else cacheAfter tracked;
      activePanel := activePanel m |},
   StatusBar (sumValues (default ∅ (currentStats !! dateKey env)))
   :: Classified text queryType ::
   (if activePanel m
    then LiveUpdate currentStats tqStats projStats (branch live) :: nil
    else nil)).
Proof.
  intros Hbig. cbv zeta. unfold processChange.
  destruct (Z.ltb_spec AI_THRESHOLD (Z.of_nat (String.length text))); [reflexivity | lia].
Qed.

Lemma recordQuery_lookup_ne (key key' : string) (estIn estOut : Z) (queryType : string)
    (table : gmap string UsageRecord) :
  key' <> key -> recordQuery key estIn estOut queryType table !! key' = table !! key'.
Proof. intros Hne. unfold recordQuery. apply lookup_insert_ne. congruence. Qed.

Lemma recordUsage_lookup (dateKey : string) (tokens : Z)
    (currentStats : gmap string (gmap string Z)) :
  recordUsage dateKey tokens currentStats !! dateKey
  = Some (<[defaultModel := or_zero (default ∅ (currentStats !! dateKey) !! defaultModel) + tokens]>
            (default ∅ (currentStats !! dateKey))).
Proof. unfold recordUsage. apply lookup_insert_eq. Qed.

Lemma recordUsage_lookup_ne (dateKey date' : string) (tokens : Z)
    (currentStats : gmap string (gmap string Z)) :
  date' <> dateKey -> recordUsage dateKey tokens currentStats !! date' = currentStats !! date'.
Proof. intros Hne. unfold recordUsage. apply lookup_insert_ne. congruence. Qed.

(** X5.  Processing a change, of any length, leaves alone every date of
    the model table and of the token/query table other than the date of the
    change, every branch of the project table other than the branch the
    change is tracked under, every model of the date other than the default
    model, and the stored user id. *)
Theorem listener_touches_one_date_and_one_branch
    (env : ChangeEnv) (m : Monitor) (text : string) (date' branch' model' : string) :
  let gs := globalState m in
  let gs' := globalState (processChange env m text).1 in
  (date' <> dateKey env ->
   daily_usage_stats gs' !! date' = daily_usage_stats gs !! date'
   /\ daily_token_query_stats gs' !! date' = daily_token_query_stats gs !! date')
  /\ (branch' <> branch (getCurrentBranch (branchCache m) (trackingEnv env)) ->
      project_usage_stats gs' !! branch' = project_usage_stats gs !! branch')
  /\ (model' <> defaultModel ->
      default ∅ (daily_usage_stats gs' !! dateKey env) !! model'
      = default ∅ (daily_usage_stats gs !! dateKey env) !! model')
  /\ antigravity_userId gs' = antigravity_userId gs.
Proof.
  cbv zeta.
  destruct (Z.lt_ge_cases AI_THRESHOLD (Z.of_nat (String.length text))) as [Hbig | Hsmall].
  - rewrite (processChange_big env m text Hbig).
    cbn [fst globalState daily_usage_stats daily_token_query_stats project_usage_stats
         antigravity_userId].
    split; [| split; [| split]].
    + intros Hne. split.
      * apply recordUsage_lookup_ne. exact Hne.
      * apply recordQuery_lookup_ne. exact Hne.
    + intros Hne. apply recordQuery_lookup_ne. exact Hne.
    + intros Hne. rewrite recordUsage_lookup. cbn [default].
      apply lookup_insert_ne. congruence.
    + reflexivity.
  - rewrite (processChange_small env m text Hsmall). cbn [fst]. tauto.
Qed.





(** ** More on the edit listener: the changes of an event *)


Lemma onDidChangeTextDocument_cons (m : Monitor) (env : ChangeEnv) (text : string)
    (rest : list (ChangeEnv * string)) :
  onDidChangeTextDocument m ((env, text) :: rest)
  = ((onDidChangeTextDocument (processChange env m text).1 rest).1,
     ((processChange env m text).2
      ++ (onDidChangeTextDocument (processChange env m text).1 rest).2)%list).
Proof.
  cbn [onDidChangeTextDocument].
  destruct (processChange env m text) as [m1 shown1]. cbn [fst snd].
  destruct (onDidChangeTextDocument m1 rest) as [m2 shown2]. reflexivity.
Qed.




Lemma classifications_app (l1 l2 : list Effect) :
  classifications (l1 ++ l2) = (classifications l1 ++ classifications l2)%list.
Proof.
  induction l1 as [| e l1 IH]; [reflexivity |].
  destruct e; cbn; rewrite IH; reflexivity.
Qed.

(** X9.  For an event, the session counter of events grows by the number
    of its changes of more than 30 characters and the counter of characters
    by their total length; the classifications reported are those of
    exactly these changes, in order; each of them shows three effects when
    a dashboard panel is open and two otherwise; and the panel and the
    stored user id are left as they are. *)
Theorem event_counts_its_qualifying_changes
    (m : Monitor) (contentChanges : list (ChangeEnv * string)) :
  let after := onDidChangeTextDocument m contentChanges in
  let counted := List.filter qualifies contentChanges in
  aiUsageCount after.1 = aiUsageCount m + Z.of_nat (length counted)
  /\ aiGeneratedChars after.1 = aiGeneratedChars m + insertedChars counted
  /\ classifications after.2 = map (fun change => (change.2, classifyQuery change.2)) counted
  /\ length after.2 = ((if activePanel m then 3 else 2) * length counted)%nat
  /\ activePanel after.1 = activePanel m
  /\ antigravity_userId (globalState after.1) = antigravity_userId (globalState m).
Proof.
  cbv zeta. revert m.
  induction contentChanges as [| [env text] rest IH]; intros m.
  - cbn. repeat split; try lia; destruct (activePanel m); reflexivity.
  - rewrite onDidChangeTextDocument_cons. cbn [fst snd List.filter].
    destruct (IH (processChange env m text).1) as (Hc & Hg & Hk & Hl & Hp & Hu).
    rewrite Hc, Hg, Hu, classifications_app, Hk, length_app, Hl, Hp.
    destruct (Z.lt_ge_cases AI_THRESHOLD (Z.of_nat (String.length text))) as [Hbig | Hsmall].
    + assert (Hq : qualifies (env, text) = true) by (apply Z.ltb_lt; exact Hbig).
      rewrite Hq, (processChange_big env m text Hbig).
      cbn [fst snd aiUsageCount aiGeneratedChars activePanel globalState antigravity_userId
           insertedChars fold_right length map].
      fold (insertedChars (List.filter qualifies rest)).
      repeat split; try lia.
      * destruct (activePanel m); reflexivity.
      * destruct (activePanel m); cbn [length]; lia.
    + assert (Hq : qualifies (env, text) = false) by (apply Z.ltb_ge; exact Hsmall).
      rewrite Hq, (processChange_small env m text Hsmall).
      cbn [fst snd length classifications].
      repeat split; reflexivity.
Qed.

Lemma record_le_refl (r : UsageRecord) : record_le r r.
Proof. repeat split; try lia. intros q n Hq. exists n. split; [exact Hq | lia]. Qed.

Lemma record_le_trans (r1 r2 r3 : UsageRecord) :
  record_le r1 r2 -> record_le r2 r3 -> record_le r1 r3.
Proof.
  intros (Hi & Ho & Hq) (Hi' & Ho' & Hq'). repeat split; try lia.
  intros q n Hn. destruct (Hq q n Hn) as (n2 & Hn2 & Hle).
  destruct (Hq' q n2 Hn2) as (n3 & Hn3 & Hle'). exists n3. split; [exact Hn3 | lia].
Qed.

Lemma table_le_refl (t : gmap string UsageRecord) : table_le t t.
Proof. intros key r Hr. exists r. split; [exact Hr | apply record_le_refl]. Qed.

Lemma table_le_trans (t1 t2 t3 : gmap string UsageRecord) :
  table_le t1 t2 -> table_le t2 t3 -> table_le t1 t3.
Proof.
  intros H12 H23 key r Hr. destruct (H12 key r Hr) as (r2 & Hr2 & Hle).
  destruct (H23 key r2 Hr2) as (r3 & Hr3 & Hle'). exists r3.
  split; [exact Hr3 | eapply record_le_trans; eassumption].
Qed.

Lemma usage_le_refl (u : gmap string (gmap string Z)) : usage_le u u.
Proof. intros date model day n Hd Hn. exists day, n. repeat split; try assumption. lia. Qed.

Lemma usage_le_trans (u1 u2 u3 : gmap string (gmap string Z)) :
  usage_le u1 u2 -> usage_le u2 u3 -> usage_le u1 u3.
Proof.
  intros H12 H23 date model day n Hd Hn.
  destruct (H12 date model day n Hd Hn) as (day2 & n2 & Hd2 & Hn2 & Hle).
  destruct (H23 date model day2 n2 Hd2 Hn2) as (day3 & n3 & Hd3 & Hn3 & Hle').
  exists day3, n3. repeat split; try assumption. lia.
Qed.

Lemma recordQuery_le (key : string) (estIn estOut : Z) (queryType : string)
    (table : gmap string UsageRecord) :
  0 <= estIn -> 0 <= estOut ->
  table_le table (recordQuery key estIn estOut queryType table).
Proof.
  intros Hin Hout k r Hr. destruct (decide (k = key)) as [-> | Hne].
  - eexists. split; [apply recordQuery_lookup |]. rewrite Hr.
    change (default freshRecord (Some r)) with r.
    split; [cbn; lia |]. split; [cbn; lia |]. cbn [queries].
    intros q n Hq. destruct (decide (q = queryType)) as [-> | Hq'].
    + eexists. split; [apply lookup_insert_eq |]. rewrite Hq. cbn. lia.
    + exists n. split; [| lia]. rewrite lookup_insert_ne by congruence. exact Hq.
  - exists r. split; [| apply record_le_refl].
    rewrite recordQuery_lookup_ne by exact Hne. exact Hr.
Qed.

Lemma recordUsage_le (dateKey : string) (tokens : Z)
    (currentStats : gmap string (gmap string Z)) :
  0 <= tokens -> usage_le currentStats (recordUsage dateKey tokens currentStats).
Proof.
  intros Hpos date model day n Hd Hn. destruct (decide (date = dateKey)) as [-> | Hne].
  - eexists. rewrite recordUsage_lookup, Hd.
    change (default ∅ (Some day)) with day.
    destruct (decide (model = defaultModel)) as [-> | Hm].
    + eexists. split; [reflexivity |]. split; [apply lookup_insert_eq |].
      rewrite Hn. cbn. lia.
    + exists n. split; [reflexivity |]. split; [| lia].
      rewrite lookup_insert_ne by congruence. exact Hn.
  - exists day, n. rewrite recordUsage_lookup_ne by exact Hne.
    repeat split; try assumption. lia.
Qed.

Lemma estimates_nonneg (newChars : Z) :
  0 <= newChars < SAFE_BOUND ->
  0 <= estimatedOutputTokens newChars
  /\ 0 <= estimatedInputTokens (estimatedOutputTokens newChars).
Proof.
  intros Hn. destruct (estimates_exact newChars Hn) as [-> ->].
  split; apply Z.div_pos; try lia.
  assert (0 <= (newChars + 3) / 4) by (apply Z.div_pos; lia). lia.
Qed.

(** X10.  The listener only adds: after the changes of an event (of
    lengths that are safe integers), every model count, every record of the
    token/query table and of the project table, and every query count in
    them is still there, with a value that is not smaller. *)
Theorem listener_never_decreases_a_counter
    (m : Monitor) (contentChanges : list (ChangeEnv * string)) :
  Forall (fun change => Z.of_nat (String.length change.2) < SAFE_BOUND) contentChanges ->
  let gs := globalState m in
  let gs' := globalState (onDidChangeTextDocument m contentChanges).1 in
  usage_le (daily_usage_stats gs) (daily_usage_stats gs')
  /\ table_le (daily_token_query_stats gs) (daily_token_query_stats gs')
  /\ table_le (project_usage_stats gs) (project_usage_stats gs').
Proof.
  intros Hsafe. cbv zeta. revert m.
  induction Hsafe as [| [env text] rest Hlen _ IH]; intros m.
  - cbn. split; [apply usage_le_refl | split; apply table_le_refl].
  - rewrite onDidChangeTextDocument_cons. cbn [fst].
    destruct (IH (processChange env m text).1) as (Hu & Ht & Hp).
    cbn [snd] in Hlen.
    assert (Hstep :
      usage_le (daily_usage_stats (globalState m))
               (daily_usage_stats (globalState (processChange env m text).1))
      /\ table_le (daily_token_query_stats (globalState m))
                  (daily_token_query_stats (globalState (processChange env m text).1))
      /\ table_le (project_usage_stats (globalState m))
                  (project_usage_stats (globalState (processChange env m text).1))).
    { destruct (Z.lt_ge_cases AI_THRESHOLD (Z.of_nat (String.length text))) as [Hbig | Hsmall].
      - rewrite (processChange_big env m text Hbig).
        cbn [fst globalState daily_usage_stats daily_token_query_stats project_usage_stats].
        destruct (estimates_nonneg (Z.of_nat (String.length text))) as [Ho Hi]; [lia |].
        split; [apply recordUsage_le; lia |].
        split; apply recordQuery_le; assumption.
      - rewrite (processChange_small env m text Hsmall). cbn [fst].
        split; [apply usage_le_refl | split; apply table_le_refl]. }
    destruct Hstep as (Hu0 & Ht0 & Hp0).
    split; [eapply usage_le_trans; eassumption |].
    split; eapply table_le_trans; eassumption.
Qed.

Lemma listener_never_decreases_a_counter_witness :
  Forall (fun change : ChangeEnv * string => Z.of_nat (String.length change.2) < SAFE_BOUND)
         ((sample_env, sample_text) :: nil)
  /\ usage_le (daily_usage_stats (globalState sample_monitor))
              (daily_usage_stats
                 (globalState (onDidChangeTextDocument sample_monitor
                                 ((sample_env, sample_text) :: nil)).1)).
Proof.
  assert (H : Forall (fun change : ChangeEnv * string =>
                        Z.of_nat (String.length change.2) < SAFE_BOUND)
                     ((sample_env, sample_text) :: nil)).
  { repeat constructor. }
  split; [exact H |].
  exact (proj1 (listener_never_decreases_a_counter sample_monitor _ H)).
Defined.

Lemma recordQuery_known (key : string) (estIn estOut : Z) (queryType : string)
    (table : gmap string UsageRecord) :
  In queryType QUERY_TYPES -> known_types table ->
  known_types (recordQuery key estIn estOut queryType table).
Proof.
  intros Hq Hknown k r q Hr Hsome. destruct (decide (k = key)) as [-> | Hne].
  - rewrite recordQuery_lookup in Hr. injection Hr as <-. cbn [queries] in Hsome.
    destruct (decide (q = queryType)) as [-> | Hq']; [exact Hq |].
    rewrite lookup_insert_ne in Hsome by congruence.
    destruct (table !! key) as [r0 |] eqn:Hr0; cbn [default] in Hsome.
    + exact (Hknown key r0 q Hr0 Hsome).
    + cbn in Hsome. rewrite lookup_empty in Hsome. destruct Hsome as [x Hx]. discriminate.
  - rewrite recordQuery_lookup_ne in Hr by exact Hne. exact (Hknown k r q Hr Hsome).
Qed.

(** X11.  If every query type counted in the token/query table and in the
    project table is one of the six of [QUERY_TYPES], this is still so after
    the listener has processed the changes of an event. *)
Theorem listener_records_only_query_types
    (m : Monitor) (contentChanges : list (ChangeEnv * string)) :
  known_types (daily_token_query_stats (globalState m)) ->
  known_types (project_usage_stats (globalState m)) ->
  let gs' := globalState (onDidChangeTextDocument m contentChanges).1 in
  known_types (daily_token_query_stats gs') /\ known_types (project_usage_stats gs').
Proof.
  cbv zeta. revert m.
  induction contentChanges as [| [env text] rest IH]; intros m Ht Hp.
  - split; assumption.
  - rewrite onDidChangeTextDocument_cons. cbn [fst]. apply IH.
    + destruct (Z.lt_ge_cases AI_THRESHOLD (Z.of_nat (String.length text))) as [Hbig | Hsmall].
      * rewrite (processChange_big env m text Hbig). cbn [fst globalState daily_token_query_stats].
        apply recordQuery_known; [apply classifyQuery_in_types | exact Ht].
      * rewrite (processChange_small env m text Hsmall). exact Ht.
    + destruct (Z.lt_ge_cases AI_THRESHOLD (Z.of_nat (String.length text))) as [Hbig | Hsmall].
      * rewrite (processChange_big env m text Hbig). cbn [fst globalState project_usage_stats].
        apply recordQuery_known; [apply classifyQuery_in_types | exact Hp].
      * rewrite (processChange_small env m text Hsmall). exact Hp.
Qed.

Lemma known_types_empty : known_types ∅.
Proof. intros key r q Hr. rewrite lookup_empty in Hr. discriminate. Qed.

Lemma listener_records_only_query_types_witness :
  (known_types (daily_token_query_stats (globalState sample_monitor))
   /\ known_types (project_usage_stats (globalState sample_monitor)))
  /\ known_types (project_usage_stats
       (globalState (onDidChangeTextDocument sample_monitor
                       ((sample_env, sample_text) :: nil)).1)).
Proof.
  split; [split; exact known_types_empty |].
  exact (proj2 (listener_records_only_query_types sample_monitor
                  ((sample_env, sample_text) :: nil)
                  known_types_empty known_types_empty)).
Defined.

(** ** More on the clean-up of the project table *)

Lemma cleanup_fold_flag (ks : list string) :
  forall (acc : gmap string UsageRecord) (b : bool),
  (fold_left cleanupStep ks (acc, b)).2 = true <->
  b = true \/ exists (k : string) (proj : UsageRecord),
                 k ∈ ks /\ acc !! k = Some proj /\ removable k proj = true.
Proof.
  induction ks as [| key ks IH]; intros acc b; cbn [fold_left].
  - cbn [snd]. split; [intros H; left; exact H |].
    intros [H | (k & proj & Hin & _)]; [exact H |]. apply elem_of_nil in Hin. destruct Hin.
  - unfold cleanupStep at 2. cbn [fst].
    destruct (acc !! key) as [proj0 |] eqn:Hkey.
    + destruct (removable key proj0) eqn:Hrem.
      * rewrite IH. split; [intros _ | intros _; left; reflexivity].
        right. exists key, proj0. split; [apply list_elem_of_here | split; assumption].
      * rewrite IH. split.
        -- intros [H | (k & proj & Hin & Hk & Hr)]; [left; exact H |].
           right. exists k, proj. split; [apply list_elem_of_further; exact Hin |].
           split; assumption.
        -- intros [H | (k & proj & Hin & Hk & Hr)]; [left; exact H |].
           apply elem_of_cons in Hin. destruct Hin as [-> | Hin].
           ++ rewrite Hkey in Hk. injection Hk as <-. congruence.
           ++ right. exists k, proj. split; [exact Hin | split; assumption].
    + rewrite IH. split.
      * intros [H | (k & proj & Hin & Hk & Hr)]; [left; exact H |].
        right. exists k, proj. split; [apply list_elem_of_further; exact Hin |].
        split; assumption.
      * intros [H | (k & proj & Hin & Hk & Hr)]; [left; exact H |].
        apply elem_of_cons in Hin. destruct Hin as [-> | Hin]; [congruence |].
        right. exists k, proj. split; [exact Hin | split; assumption].
Qed.

Lemma cleanupProjects_flag (P : gmap string UsageRecord) :
  (cleanupProjects P).2 = true <->
  exists (k : string) (proj : UsageRecord), P !! k = Some proj /\ removable k proj = true.
Proof.
  unfold cleanupProjects. rewrite cleanup_fold_flag. split.
  - intros [H | (k & proj & _ & Hk & Hr)]; [discriminate |]. exists k, proj. split; assumption.
  - intros (k & proj & Hk & Hr). right. exists k, proj.
    split; [| split; assumption].
    apply list_elem_of_fmap. exists (k, proj). split; [reflexivity |].
    apply elem_of_map_to_list. exact Hk.
Qed.

Lemma removable_inv (key : string) (proj : UsageRecord) :
  removable key proj = true ->
  exists v : Z, queries proj = {[ "Coding" := v ]} /\ v <> 0
                /\ (v = expectedFromSeed proj \/ key = "unknown").
Proof.
  unfold removable. intros H. apply andb_true_iff in H. destruct H as [Hsize H].
  apply bool_decide_eq_true in Hsize.
  destruct (queries proj !! "Coding") as [v |] eqn:Hv; [| discriminate].
  apply andb_true_iff in H. destruct H as [Hnz Hor].
  exists v. split; [| split].
  - apply map_eq. intros q. destruct (decide (q = "Coding")) as [-> | Hne].
    + rewrite lookup_singleton_eq. exact Hv.
    + rewrite lookup_singleton_ne by congruence.
      destruct (queries proj !! q) as [x |] eqn:Hq; [exfalso | reflexivity].
      assert (Hdel : size (delete "Coding" (queries proj)) = 0%nat).
      { rewrite map_size_delete, Hv, Hsize. reflexivity. }
      apply map_size_empty_iff in Hdel.
      assert (Hx : delete "Coding" (queries proj) !! q = Some x)
        by (rewrite lookup_delete_ne by congruence; exact Hq).
      rewrite Hdel, lookup_empty in Hx. discriminate.
  - apply negb_true_iff in Hnz. apply Z.eqb_neq in Hnz. exact Hnz.
  - apply orb_true_iff in Hor. destruct Hor as [He | Hu].
    + left. apply Z.eqb_eq. exact He.
    + right. apply String.eqb_eq. exact Hu.
Qed.

(** X12.  The clean-up pass only removes: the table it leaves is included
    in the table it was given.  Every entry it removes has a queries map
    with the single key Coding, whose count is not zero and is the count
    expected from seeding or belongs to the key "unknown".  The flag
    needsCleanup, which guards the write-back, is set exactly when the
    table has changed. *)
Theorem cleanup_only_removes_single_coding_entries (P : gmap string UsageRecord) :
  let cleaned := (cleanupProjects P).1 in
  let needsCleanup := (cleanupProjects P).2 in
  cleaned ⊆ P
  /\ (forall (key : string) (proj : UsageRecord),
        P !! key = Some proj -> cleaned !! key = None ->
        exists v : Z, queries proj = {[ "Coding" := v ]} /\ v <> 0
                      /\ (v = expectedFromSeed proj \/ key = "unknown"))
  /\ (needsCleanup = true <-> cleaned <> P)
  /\ (needsCleanup = false -> cleaned = P).
Proof.
  cbv zeta.
  assert (Hsub : (cleanupProjects P).1 ⊆ P).
  { apply map_subseteq_spec. intros k x Hk. rewrite cleanupProjects_lookup in Hk.
    destruct (P !! k) as [proj |]; [| discriminate].
    destruct (removable k proj); [discriminate | exact Hk]. }
  assert (Hsame : (cleanupProjects P).2 = false -> (cleanupProjects P).1 = P).
  { intros Hflag. apply map_eq. intros k. rewrite cleanupProjects_lookup.
    destruct (P !! k) as [proj |] eqn:Hk; [| reflexivity].
    destruct (removable k proj) eqn:Hr; [| reflexivity].
    assert (Htrue : (cleanupProjects P).2 = true)
      by (apply cleanupProjects_flag; exists k, proj; split; assumption).
    congruence. }
  split; [exact Hsub |]. split; [| split; [| exact Hsame]].
  - intros key proj Hk Hgone. rewrite cleanupProjects_lookup, Hk in Hgone.
    destruct (removable key proj) eqn:Hr; [| discriminate].
    apply removable_inv. exact Hr.
  - split.
    + intros Hflag Heq. apply cleanupProjects_flag in Hflag.
      destruct Hflag as (k & proj & Hk & Hr).
      assert (Hl := cleanupProjects_lookup P k). rewrite Heq, Hk, Hr in Hl. discriminate.
    + intros Hne. destruct ((cleanupProjects P).2) eqn:Hflag; [reflexivity |].
      exfalso. apply Hne. apply Hsame. reflexivity.
Qed.

(** X13.  A second clean-up pass over the table a pass has left removes
    nothing and does not set needsCleanup. *)
Theorem cleanup_is_idempotent (P : gmap string UsageRecord) :
  cleanupProjects (cleanupProjects P).1 = ((cleanupProjects P).1, false).
Proof.
  assert (Hflag : (cleanupProjects (cleanupProjects P).1).2 = false).
  { destruct ((cleanupProjects (cleanupProjects P).1).2) eqn:Hf; [exfalso | reflexivity].
    apply cleanupProjects_flag in Hf. destruct Hf as (k & proj & Hk & Hr).
    rewrite cleanupProjects_lookup in Hk.
    destruct (P !! k) as [proj0 |]; [| discriminate].
    destruct (removable k proj0) eqn:Hr0; [discriminate |].
    injection Hk as ->. congruence. }
  assert (Hsame : (cleanupProjects (cleanupProjects P).1).1 = (cleanupProjects P).1).
  { apply map_eq. intros k. rewrite cleanupProjects_lookup.
    destruct ((cleanupProjects P).1 !! k) as [proj |] eqn:Hk; [| reflexivity].
    destruct (removable k proj) eqn:Hr; [exfalso | reflexivity].
    assert (Htrue : (cleanupProjects (cleanupProjects P).1).2 = true)
      by (apply cleanupProjects_flag; exists k, proj; split; assumption).
    congruence. }
  destruct (cleanupProjects (cleanupProjects P).1) as [t b]. cbn [fst snd] in *.
  congruence.
Qed.




(** ** The totals the webview shows *)










(** ** More on export and upload *)

(** X17.  [getExportData] leaves a non-empty user id in the store and
    exports it.  A stored non-empty id is exported as it is and the store
    is left untouched; otherwise the id is "user_" followed by the clock
    reading.  A second call, at any later time and for any e-mail, exports
    the same id and changes nothing; and no call changes the three
    tables. *)
Theorem user_id_is_generated_once
    (gs : GlobalState) (email1 email2 : string) (now1 now2 : Z) :
  let first := getExportData gs email1 now1 in
  let second := getExportData first.2 email2 now2 in
  second.1 !! "userId" = first.1 !! "userId"
  /\ second.2 = first.2
  /\ (exists id : string,
        id <> "" /\ antigravity_userId first.2 = Some id
        /\ first.1 !! "userId" = Some (FStr id))
  /\ (forall id : string,
        antigravity_userId gs = Some id -> id <> "" ->
        first.1 !! "userId" = Some (FStr id) /\ first.2 = gs)
  /\ (truthy_string (antigravity_userId gs) = None ->
      first.1 !! "userId" = Some (FStr ("user_" +:+ pretty now1)))
  /\ daily_usage_stats first.2 = daily_usage_stats gs
  /\ daily_token_query_stats first.2 = daily_token_query_stats gs
  /\ project_usage_stats first.2 = project_usage_stats gs.
Proof.
  cbv zeta.
  set (id1 := match truthy_string (antigravity_userId gs) with
              | Some id => id
              | None => "user_" +:+ pretty now1
              end).
  assert (Hne : id1 <> "").
  { unfold id1. destruct (antigravity_userId gs) as [[| c s] |]; cbn; discriminate. }
  assert (Htruthy : truthy_string (Some id1) = Some id1).
  { destruct id1; [contradiction | reflexivity]. }
  assert (Hfirst2 : (getExportData gs email1 now1).2 =
            {| daily_usage_stats := daily_usage_stats gs;
               daily_token_query_stats := daily_token_query_stats gs;
               project_usage_stats := project_usage_stats gs;
               antigravity_userId := Some id1 |}) by reflexivity.
  assert (Hfirst1 : (getExportData gs email1 now1).1 !! "userId" = Some (FStr id1)).
  { unfold getExportData. cbn [fst]. apply lookup_insert_eq. }
  rewrite Hfirst2, Hfirst1.
  split.
  { unfold getExportData at 1. cbn [fst antigravity_userId]. rewrite Htruthy.
    apply lookup_insert_eq. }
  split.
  { unfold getExportData. cbn [snd antigravity_userId daily_usage_stats
      daily_token_query_stats project_usage_stats]. rewrite Htruthy. reflexivity. }
  split; [exists id1; repeat split; assumption |].
  split.
  { intros id Hid Hnz. unfold id1. rewrite Hid.
    destruct id as [| c s]; [contradiction |]. cbn.
    split; [reflexivity |]. destruct gs; cbn in *. congruence. }
  split; [intros Hnone; unfold id1; rewrite Hnone; reflexivity |].
  repeat split.
Qed.

Lemma mergeExport_found (currentData : list (gmap string field))
    (incoming : gmap string field) (j : nat) (old : gmap string field) :
  currentData !! j = Some old ->
  sameUser incoming old = true ->
  (forall (i : nat) (u : gmap string field),
     currentData !! i = Some u -> (i < j)%nat -> sameUser incoming u = false) ->
  mergeExport currentData incoming = <[j := incoming ∪ old]> currentData.
Proof.
  intros Hj Hsame Hfirst. unfold mergeExport.
  assert (Hf : list_find (fun u => sameUser incoming u = true) currentData = Some (j, old)).
  { apply list_find_Some. split; [exact Hj |]. split; [exact Hsame |].
    intros i u Hi Hlt. rewrite (Hfirst i u Hi Hlt). discriminate. }
  rewrite Hf. reflexivity.
Qed.

Lemma mergeExport_cases (currentData : list (gmap string field))
    (incoming : gmap string field) :
  (exists (j : nat) (old : gmap string field),
     currentData !! j = Some old
     /\ sameUser incoming old = true
     /\ (forall (i : nat) (u : gmap string field),
           currentData !! i = Some u -> (i < j)%nat -> sameUser incoming u = false)
     /\ mergeExport currentData incoming = <[j := incoming ∪ old]> currentData)
  \/ ((forall u : gmap string field, u ∈ currentData -> sameUser incoming u = false)
      /\ mergeExport currentData incoming
         = (currentData ++ (<["avatarUrl" := defaultAvatar incoming]> incoming) :: nil)%list).
Proof.
  unfold mergeExport.
  destruct (list_find (fun u => sameUser incoming u = true) currentData)
    as [[j old] |] eqn:Hfind.
  - left. apply list_find_Some in Hfind. destruct Hfind as (Hj & Hsame & Hfirst).
    exists j, old. split; [exact Hj |]. split; [exact Hsame |]. split; [| reflexivity].
    intros i u Hi Hlt. specialize (Hfirst i u Hi Hlt).
    destruct (sameUser incoming u); [contradiction | reflexivity].
  - right. split; [| reflexivity].
    apply list_find_None in Hfind. rewrite Forall_forall in Hfind.
    intros u Hu. specialize (Hfind u Hu).
    destruct (sameUser incoming u); [contradiction | reflexivity].
Qed.

(** X18.  The merge of an upload changes at most one record of the
    dashboard file: a record that matches the incoming one neither by
    userId nor by e-mail stays where it is, and every record is afterwards
    either itself or the incoming record spread over it.  When some record
    matches, the file keeps its length; when none does, the incoming record
    is appended, with the default avatar, and the file grows by one. *)
Theorem merge_changes_at_most_one_record
    (currentData : list (gmap string field)) (incoming : gmap string field) :
  let merged := mergeExport currentData incoming in
  (forall (i : nat) (u : gmap string field),
     currentData !! i = Some u -> sameUser incoming u = false -> merged !! i = Some u)
  /\ (forall (i : nat) (u : gmap string field),
        currentData !! i = Some u ->
        merged !! i = Some u \/ merged !! i = Some (incoming ∪ u))
  /\ ((exists u : gmap string field, u ∈ currentData /\ sameUser incoming u = true) ->
      length merged = length currentData)
  /\ ((forall u : gmap string field, u ∈ currentData -> sameUser incoming u = false) ->
      merged = (currentData ++ (<["avatarUrl" := defaultAvatar incoming]> incoming) :: nil)%list
      /\ length merged = S (length currentData)).
Proof.
  cbv zeta.
  destruct (mergeExport_cases currentData incoming)
    as [(j & old & Hj & Hsame & Hfirst & ->) | (Hnone & ->)].
  - split; [| split; [| split]].
    + intros i u Hi Hu. destruct (decide (i = j)) as [-> | Hne].
      * rewrite Hj in Hi. injection Hi as <-. congruence.
      * rewrite list_lookup_insert_ne by congruence. exact Hi.
    + intros i u Hi. destruct (decide (i = j)) as [-> | Hne].
      * right. rewrite Hj in Hi. injection Hi as <-.
        apply list_lookup_insert_eq. eapply lookup_lt_Some. exact Hj.
      * left. rewrite list_lookup_insert_ne by congruence. exact Hi.
    + intros _. apply length_insert.
    + intros Hnone. exfalso.
      rewrite (Hnone old) in Hsame; [discriminate |].
      eapply list_elem_of_lookup_2. exact Hj.
  - split; [| split; [| split]].
    + intros i u Hi _. apply lookup_app_l_Some. exact Hi.
    + intros i u Hi. left. apply lookup_app_l_Some. exact Hi.
    + intros (u & Hu & Hsame). rewrite (Hnone u Hu) in Hsame. discriminate.
    + intros _. split; [reflexivity |]. rewrite length_app. cbn. lia.
Qed.

Lemma sameUser_own_id (incoming u : gmap string field) (id : string) :
  incoming !! "userId" = Some (FStr id) ->
  u !! "userId" = Some (FStr id) ->
  sameUser incoming u = true.
Proof.
  intros Hi Hu. unfold sameUser. rewrite Hi, Hu. cbn. rewrite String.eqb_refl. reflexivity.
Qed.

(** X19.  Uploading the same export twice gives the file that uploading it
    once gives: the second merge finds the record the first one has written
    and writes it again. *)
Theorem upload_twice_is_upload_once
    (gs : GlobalState) (userEmail : string) (now : Z)
    (currentData : list (gmap string field)) :
  let incoming := (getExportData gs userEmail now).1 in
  mergeExport (mergeExport currentData incoming) incoming = mergeExport currentData incoming.
Proof.
  intros incoming.
  destruct (exported_fields gs userEmail now) as ((id & Huid) & _ & Hno).
  fold incoming in Huid, Hno. clearbody incoming.
  destruct (mergeExport_cases currentData incoming)
    as [(j & old & Hj & Hsame & Hfirst & ->) | (Hnone & ->)].
  - assert (Hlt : (j < length currentData)%nat) by (eapply lookup_lt_Some; exact Hj).
    rewrite (mergeExport_found (<[j := incoming ∪ old]> currentData) incoming j (incoming ∪ old)).
    + rewrite list_insert_insert_eq. f_equal.
      rewrite (assoc_L (∪)), (idemp_L (∪) incoming). reflexivity.
    + apply list_lookup_insert_eq. exact Hlt.
    + apply (sameUser_own_id incoming _ id Huid).
      apply lookup_union_Some_l. exact Huid.
    + intros i u Hi Hij. rewrite list_lookup_insert_ne in Hi by lia.
      exact (Hfirst i u Hi Hij).
  - set (added := <["avatarUrl" := defaultAvatar incoming]> incoming).
    rewrite (mergeExport_found (currentData ++ added :: nil) incoming
               (length currentData) added).
    + rewrite insert_app_r_alt by lia. rewrite Nat.sub_diag. cbn [insert list_insert].
      assert (Hkeep : incoming ∪ added = added).
      { apply map_eq. intros k. destruct (incoming !! k) as [v |] eqn:Hk.
        - rewrite (lookup_union_Some_l _ _ _ _ Hk). unfold added.
          rewrite lookup_insert_ne by congruence. symmetry. exact Hk.
        - apply lookup_union_r. exact Hk. }
      rewrite Hkeep. reflexivity.
    + rewrite lookup_app_r by lia. rewrite Nat.sub_diag. reflexivity.
    + apply (sameUser_own_id incoming _ id Huid). unfold added.
      rewrite lookup_insert_ne by discriminate. exact Huid.
    + intros i u Hi Hlt. rewrite lookup_app_l in Hi by exact Hlt.
      apply Hnone. eapply list_elem_of_lookup_2. exact Hi.
Qed.

(** ** The machine address *)

Lemma scanEntries_spec (iface : list Os.NetworkInterfaceInfo) (mac0 : string) :
  scanEntries iface mac0
  = default mac0 (Os.mac <$> head (List.filter usable iface)).
Proof.
  induction iface as [| entry rest IH]; [reflexivity |].
  cbn [scanEntries List.filter]. destruct (usable entry); [reflexivity | exact IH].
Qed.

Lemma filter_app_list {A : Type} (p : A -> bool) (l1 l2 : list A) :
  List.filter p (l1 ++ l2) = (List.filter p l1 ++ List.filter p l2)%list.
Proof. apply List.filter_app. Qed.

(** X20.  When no address is literally "unknown", [getSystemInfo] reports
    the first address, in the order of the interfaces and of their entries,
    that is not internal, not empty and not the all-zero address, and
    "unknown" exactly when there is none; it also reports "unknown" when the
    interfaces cannot be read, and the host name as the system gives it. *)
Theorem system_mac_is_first_usable_address
    (osHostname : string)
    (interfaces : list (string * option (list Os.NetworkInterfaceInfo))) :
  Forall (fun entry => Os.mac entry <> "unknown") (addresses interfaces) ->
  let info := getSystemInfo osHostname (Some interfaces) in
  hostname info = osHostname
  /\ mac info = default "unknown" (Os.mac <$> head (List.filter usable (addresses interfaces)))
  /\ (mac info = "unknown" <->
      forall entry : Os.NetworkInterfaceInfo,
        In entry (addresses interfaces) -> usable entry = false)
  /\ mac (getSystemInfo osHostname None) = "unknown".
Proof.
  intros Hreal. cbv zeta. unfold getSystemInfo. cbn [hostname mac].
  assert (Hscan : scanInterfaces interfaces "unknown"
            = default "unknown" (Os.mac <$> head (List.filter usable (addresses interfaces)))).
  { induction interfaces as [| [name iface] rest IH]; [reflexivity |].
    unfold addresses in *. cbn [map concat snd] in *.
    apply Forall_app in Hreal. destruct Hreal as [Hhere Hrest].
    cbn [scanInterfaces]. rewrite filter_app_list.
    destruct iface as [entries |]; cbn [default from_option id] in *.
    - rewrite scanEntries_spec.
      destruct (List.filter usable entries) as [| e found] eqn:Hfound.
      + cbn. apply IH. exact Hrest.
      + cbn. assert (He : In e (List.filter usable entries)) by (rewrite Hfound; left; reflexivity).
        apply List.filter_In in He. destruct He as [He _].
        rewrite Forall_forall in Hhere.
        assert (Hne : Os.mac e <> "unknown") by (apply Hhere; apply list_elem_of_In; exact He).
        apply String.eqb_neq in Hne. rewrite Hne. reflexivity.
    - cbn. apply IH. exact Hrest. }
  split; [reflexivity |]. split; [exact Hscan |]. split; [| reflexivity].
  rewrite Hscan.
  destruct (List.filter usable (addresses interfaces)) as [| e found] eqn:Hfound.
  - cbn. split; [| reflexivity]. intros _ entry Hin.
    destruct (usable entry) eqn:Hu; [| reflexivity].
    assert (He : In entry (List.filter usable (addresses interfaces)))
      by (apply List.filter_In; split; assumption).
    rewrite Hfound in He. destruct He.
  - cbn. assert (He : In e (List.filter usable (addresses interfaces)))
      by (rewrite Hfound; left; reflexivity).
    apply List.filter_In in He. destruct He as [He Hu].
    split.
    + intros Heq. exfalso. rewrite Forall_forall in Hreal.
      apply (Hreal e); [apply list_elem_of_In; exact He | exact Heq].
    + intros Hnone. rewrite (Hnone e He) in Hu. discriminate.
Qed.

Lemma system_mac_is_first_usable_address_witness :
  Forall (fun entry => Os.mac entry <> "unknown") (addresses sample_interfaces)
  /\ mac (getSystemInfo "devbox" (Some sample_interfaces)) = "a4:83:e7:12:9c:01".
Proof.
  assert (H : Forall (fun entry => Os.mac entry <> "unknown") (addresses sample_interfaces)).
  { repeat constructor; discriminate. }
  split; [exact H |].
  destruct (system_mac_is_first_usable_address "devbox" sample_interfaces H) as (_ & Hmac & _).
  rewrite Hmac. reflexivity.
Defined.

(** ** The records the dashboard loads *)

Lemma strictEq_eq (a b : option field) : strictEq a b = true -> a = b.
Proof.
  destruct a as [[x | |] |], b as [[y | |] |]; cbn; try discriminate; try reflexivity.
  intros H. apply String.eqb_eq in H. subst. reflexivity.
Qed.

Lemma mapSet_same (entries : list (option field * gmap string field))
    (key : option field) (value : gmap string field) :
  strictEq key key = true ->
  List.filter (fun e => strictEq e.1 key) (mapSet entries key value)
  = match List.filter (fun e => strictEq e.1 key) entries with
    | nil => (key, value) :: nil
    | e :: rest => (e.1, value) :: rest
    end.
Proof.
  intros Hrefl. induction entries as [| [k' v'] entries IH].
  - cbn. rewrite Hrefl. reflexivity.
  - cbn [mapSet List.filter fst]. destruct (strictEq k' key) eqn:Hk.
    + cbn [List.filter fst]. rewrite Hk. reflexivity.
    + cbn [List.filter fst]. rewrite Hk. exact IH.
Qed.

Lemma mapSet_other (entries : list (option field * gmap string field))
    (key other : option field) (value : gmap string field) :
  strictEq key other = false ->
  List.filter (fun e => strictEq e.1 other) (mapSet entries key value)
  = List.filter (fun e => strictEq e.1 other) entries.
Proof.
  intros Hne. induction entries as [| [k' v'] entries IH].
  - cbn. rewrite Hne. reflexivity.
  - cbn [mapSet List.filter fst]. destruct (strictEq k' key) eqn:Hk.
    + apply strictEq_eq in Hk. subst k'. cbn [List.filter fst]. rewrite Hne. reflexivity.
    + cbn [List.filter fst]. rewrite IH. reflexivity.
Qed.

Lemma mapSet_keys (entries : list (option field * gmap string field))
    (key : option field) (value : gmap string field) :
  Forall (fun e => e.1 = e.2 !! "userId") entries ->
  key = value !! "userId" ->
  Forall (fun e => e.1 = e.2 !! "userId") (mapSet entries key value).
Proof.
  intros Hall Hkey. induction Hall as [| [k' v'] entries Hhead Hall IH].
  - cbn. constructor; [exact Hkey | constructor].
  - cbn [mapSet]. destruct (strictEq k' key) eqn:Hk.
    + constructor; [| exact Hall]. apply strictEq_eq in Hk. cbn. congruence.
    + constructor; [exact Hhead | exact IH].
Qed.

Lemma mapSet_length (entries : list (option field * gmap string field))
    (key : option field) (value : gmap string field) :
  (length (mapSet entries key value) <= S (length entries))%nat.
Proof.
  induction entries as [| [k' v'] entries IH]; cbn [mapSet]; [cbn; lia |].
  destruct (strictEq k' key); cbn [length]; lia.
Qed.

Lemma entriesOf_snoc (allUsers : list (gmap string field)) (u : gmap string field) :
  entriesOf (allUsers ++ u :: nil) = mapSet (entriesOf allUsers) (u !! "userId") u.
Proof. unfold entriesOf. rewrite fold_left_app. reflexivity. Qed.

Lemma entriesOf_spec (allUsers : list (gmap string field)) :
  Forall (fun e => e.1 = e.2 !! "userId") (entriesOf allUsers)
  /\ (length (entriesOf allUsers) <= length allUsers)%nat
  /\ forall key : option field,
       strictEq key key = true ->
       List.filter (fun e => strictEq e.1 key) (entriesOf allUsers)
       = match last (List.filter (keyed key) allUsers) with
         | Some u => (key, u) :: nil
         | None => nil
         end.
Proof.
  induction allUsers as [| u allUsers IH] using rev_ind.
  - split; [constructor |]. split; [cbn; lia |]. intros key _. reflexivity.
  - destruct IH as (Hkeys & Hlen & Hfilter). rewrite entriesOf_snoc.
    split; [apply mapSet_keys; [exact Hkeys | reflexivity] |].
    split.
    { pose proof (mapSet_length (entriesOf allUsers) (u !! "userId") u).
      rewrite length_app. cbn [length]. lia. }
    intros key Hrefl. rewrite List.filter_app. cbn [List.filter].
    unfold keyed at 2. destruct (strictEq (u !! "userId") key) eqn:Hu.
    + apply strictEq_eq in Hu. rewrite Hu.
      rewrite (mapSet_same _ key u Hrefl), (Hfilter key Hrefl), last_snoc.
      destruct (last (List.filter (keyed key) allUsers)); reflexivity.
    + rewrite (mapSet_other _ _ key u Hu), (Hfilter key Hrefl), app_nil_r. reflexivity.
Qed.

Lemma filter_values (entries : list (option field * gmap string field))
    (key : option field) :
  Forall (fun e => e.1 = e.2 !! "userId") entries ->
  List.filter (keyed key) entries.*2
  = (List.filter (fun e => strictEq e.1 key) entries).*2.
Proof.
  induction 1 as [| [k v] entries Hhead _ IH]; [reflexivity |].
  cbn [fmap list_fmap List.filter snd fst] in *. unfold keyed at 1.
  rewrite <- Hhead. destruct (strictEq k key); cbn [fmap list_fmap snd]; rewrite IH; reflexivity.
Qed.

(** X21.  The dashboard's [getData] returns, for every userId (a string,
    or missing), exactly one record when the files hold some record with
    that userId, namely the last of them in reading order, and none
    otherwise; it never returns more records than the files hold. *)
Theorem getData_keeps_the_last_record_of_each_user
    (files : list parsed) (key : option field) :
  strictEq key key = true ->
  let allUsers := fold_left loadFile files nil in
  List.filter (keyed key) (getData files)
  = match last (List.filter (keyed key) allUsers) with
    | Some u => u :: nil
    | None => nil
    end
  /\ (length (getData files) <= length allUsers)%nat.
Proof.
  intros Hrefl allUsers. unfold getData, uniqueUsers. fold allUsers.
  fold (entriesOf allUsers).
  destruct (entriesOf_spec allUsers) as (Hkeys & Hlen & Hfilter).
  split.
  - rewrite (filter_values _ key Hkeys), (Hfilter key Hrefl).
    destruct (last (List.filter (keyed key) allUsers)); reflexivity.
  - rewrite length_fmap. exact Hlen.
Qed.

Lemma getData_keeps_the_last_record_of_each_user_witness :
  strictEq (Some (FStr "user_1")) (Some (FStr "user_1")) = true
  /\ List.filter (keyed (Some (FStr "user_1"))) (getData sample_files)
     = (<["avatarUrl" := FStr "https://api.dicebear.com/7.x/avataaars/svg?seed=user_1"]>
        (<["userId" := FStr "user_1"]> (<["email" := FStr "new@example.com"]> ∅))) :: nil
  /\ length (getData sample_files) = 2%nat.
Proof.
  assert (H : strictEq (Some (FStr "user_1")) (Some (FStr "user_1")) = true) by reflexivity.
  split; [exact H |].
  destruct (getData_keeps_the_last_record_of_each_user sample_files (Some (FStr "user_1")) H)
    as (Hlast & _).
  split; [rewrite Hlast; vm_compute; reflexivity | vm_compute; reflexivity].
Defined.

(** ** The date filter of the webview *)

Lemma prefix_of_empty (s : string) : String.prefix "" s = true.
Proof. destruct s; reflexivity. Qed.

Lemma starts_with_trans (a b c : string) :
  String.prefix a b = true -> String.prefix b c = true -> String.prefix a c = true.
Proof.
  revert b c. induction a as [| x a IH]; intros b c Hab Hbc; [apply prefix_of_empty |].
  destruct b as [| y b]; [discriminate |]. destruct c as [| z c]; [discriminate |].
  cbn in *. destruct (ascii_dec x y) as [-> |]; [| discriminate].
  destruct (ascii_dec y z) as [-> |]; [| discriminate].
  apply (IH b c); assumption.
Qed.

Lemma slice_prefix (n m : nat) (s : string) :
  (n <= m)%nat -> String.prefix (slice n s) (slice m s) = true.
Proof.
  unfold slice. revert m s. induction n as [| n IH]; intros m s Hle.
  - destruct s; apply prefix_of_empty.
  - destruct m as [| m]; [lia |]. destruct s as [| c s]; [reflexivity |].
    cbn. destruct (ascii_dec c c); [| congruence]. apply IH. lia.
Qed.

Lemma slice_prefix_self (n : nat) (s : string) : String.prefix (slice n s) s = true.
Proof.
  unfold slice. revert s. induction n as [| n IH]; intros s.
  - destruct s; apply prefix_of_empty.
  - destruct s as [| c s]; [reflexivity |].
    cbn. destruct (ascii_dec c c); [| congruence]. apply IH.
Qed.

Lemma filterByDate_lookup {V : Type} (env : DateEnv) (data : gmap string V)
    (range dateStr : string) :
  filterByDate env data range !! dateStr
  = if include env range dateStr then data !! dateStr else None.
Proof.
  unfold filterByDate. destruct (include env range dateStr) eqn:Hinc.
  - destruct (data !! dateStr) as [v |] eqn:Hd.
    + apply map_lookup_filter_Some. split; [exact Hd | exact Hinc].
    + apply map_lookup_filter_None. left. exact Hd.
  - apply map_lookup_filter_None. right. intros v _. cbn. congruence.
Qed.

Lemma filterByDate_mono {V : Type} (env : DateEnv) (data : gmap string V)
    (range1 range2 : string) :
  (forall dateStr : string,
     include env range1 dateStr = true -> include env range2 dateStr = true) ->
  filterByDate env data range1 ⊆ filterByDate env data range2.
Proof.
  intros Himp. apply map_subseteq_spec. intros d v.
  rewrite !filterByDate_lookup.
  destruct (include env range1 d) eqn:H1; [| discriminate].
  rewrite (Himp d H1). trivial.
Qed.

(** X22.  The date ranges of the webview nest: what "today" shows is
    among what "this_month" shows, that among what "this_year" shows, and
    "all" shows the whole table; whatever the range, the filter only drops
    entries.  The entries shown for "today", "this_month" and "this_year"
    carry the label of the range: the date equals it, respectively starts
    with it. *)
Theorem date_filters_nest {V : Type} (env : DateEnv) (data : gmap string V) :
  filterByDate env data "today" ⊆ filterByDate env data "this_month"
  /\ filterByDate env data "this_month" ⊆ filterByDate env data "this_year"
  /\ filterByDate env data "this_year" ⊆ filterByDate env data "all"
  /\ filterByDate env data "all" = data
  /\ (forall range : string, filterByDate env data range ⊆ data)
  /\ (forall (dateStr : string) (v : V),
        filterByDate env data "today" !! dateStr = Some v ->
        dateStr = getDateRangeLabel env "today")
  /\ (forall (range dateStr : string) (v : V),
        range = "this_month" \/ range = "this_year" ->
        filterByDate env data range !! dateStr = Some v ->
        startsWith dateStr (getDateRangeLabel env range) = true).
Proof.
  split; [| split; [| split; [| split; [| split; [| split]]]]].
  - apply filterByDate_mono. intros d. cbn. intros Hd. apply String.eqb_eq in Hd.
    subst d. unfold startsWith. apply slice_prefix_self.
  - apply filterByDate_mono. intros d. cbn. unfold startsWith. intros Hd.
    apply (starts_with_trans _ (slice 7 (todayKey env))); [| exact Hd].
    apply slice_prefix. lia.
  - apply filterByDate_mono. intros d _. reflexivity.
  - apply map_eq. intros d. rewrite filterByDate_lookup. reflexivity.
  - intros range. apply map_subseteq_spec. intros d v. rewrite filterByDate_lookup.
    destruct (include env range d); [trivial | discriminate].
  - intros d v. rewrite filterByDate_lookup. cbn.
    destruct (String.eqb_spec d (todayKey env)) as [-> |]; [reflexivity | discriminate].
  - intros range d v Hrange. rewrite filterByDate_lookup.
    destruct Hrange as [-> | ->]; cbn;
      match goal with |- context [if ?b then _ else _] => destruct b eqn:Hb end;
      try discriminate; intros _; reflexivity.
Qed.

(** X23.  For a range that is none of the nine values of the selector, the
    filter returns the empty table, while the label is "All Time". *)
Theorem unknown_range_shows_nothing {V : Type} (env : DateEnv) (data : gmap string V)
    (range : string) :
  ~ In range known_ranges ->
  filterByDate env data range = ∅ /\ getDateRangeLabel env range = "All Time".
Proof.
  intros Hunknown. unfold known_ranges in Hunknown. cbn [In] in Hunknown.
  assert (Hinc : forall d : string, include env range d = false).
  { intros d. unfold include.
    repeat match goal with
           | |- context [String.eqb range ?lit] =>
               destruct (String.eqb_spec range lit) as [Heq | _];
               [exfalso; apply Hunknown; rewrite Heq; tauto |]
           end.
    reflexivity. }
  split.
  - apply map_eq. intros d. rewrite filterByDate_lookup, Hinc, lookup_empty. reflexivity.
  - unfold getDateRangeLabel.
    repeat match goal with
           | |- context [String.eqb range ?lit] =>
               destruct (String.eqb_spec range lit) as [Heq | _];
               [exfalso; apply Hunknown; rewrite Heq; tauto |]
           end.
    reflexivity.
Qed.

Lemma unknown_range_shows_nothing_witness :
  (~ In "last_year" known_ranges)
  /\ filterByDate sample_dates ({[ "2023-12-31" := 5 ]} : gmap string Z) "last_year" = ∅
  /\ getDateRangeLabel sample_dates "last_year" = "All Time".
Proof.
  assert (H : ~ In "last_year" known_ranges).
  { unfold known_ranges. cbn [In]. intros Hin.
    repeat (destruct Hin as [Hin | Hin]; [discriminate |]). exact Hin. }
  split; [exact H |].
  exact (unknown_range_shows_nothing sample_dates {[ "2023-12-31" := 5 ]} "last_year" H).
Defined.

(** ** Consent before the e-mail look-up *)

Lemma lookupEmail_reads (env : EmailEnv) :
  In ReadStateDb (lookupEmail env).2
  /\ ~ In AskConsent (lookupEmail env).2
  /\ ~ In StoreConsent (lookupEmail env).2.
Proof.
  unfold lookupEmail.
  destruct (truthy_string (dbEmail env)); cbn.
  - split; [tauto |]. split; intros [H | []]; discriminate.
  - destruct (processScan env) as [[port token] |]; cbn.
    + destruct (truthy_number port), (truthy_string token); cbn;
        (split; [tauto |]); split; intros H;
        repeat (destruct H as [H | H]; [discriminate |]); exact H.
    + split; [tauto |]. split; intros H;
        repeat (destruct H as [H | H]; [discriminate |]); exact H.
Qed.

(** X24.  [getAntigravityEmail] reads nothing about the user without
    consent: when it reads the state database, scans the processes, calls
    the local server or returns an e-mail, consent was stored before or has
    just been given with the button Allow, and is stored afterwards.
    Without stored consent and without Allow, it only asks and returns
    nothing.  With stored consent it does not ask.  With consent it always
    starts from the state database, and an e-mail found there is returned
    without scanning the processes. *)
Theorem no_profile_read_without_consent (env : EmailEnv) :
  let r := getAntigravityEmail env in
  ((exists a : Action, In a (actions r) /\ reads_profile a = true) \/ is_Some (email r) ->
   consentAfter r = true
   /\ (hasConsented env = true \/ selection env = Some "Allow"))
  /\ (hasConsented env = false -> selection env <> Some "Allow" ->
      r = {| email := None; actions := AskConsent :: nil; consentAfter := false |})
  /\ (hasConsented env = true -> ~ In AskConsent (actions r) /\ ~ In StoreConsent (actions r))
  /\ (consentAfter r = true -> In ReadStateDb (actions r))
  /\ (forall found : string,
        consentAfter r = true -> truthy_string (dbEmail env) = Some found ->
        email r = Some found /\ ~ In ScanProcesses (actions r)).
Proof.
  cbv zeta. unfold getAntigravityEmail.
  destruct (lookupEmail_reads env) as (Hread & Hask & Hstore).
  assert (Hdb : forall found : string, truthy_string (dbEmail env) = Some found ->
            lookupEmail env = (Some found, ReadStateDb :: nil)).
  { intros found Hf. unfold lookupEmail. rewrite Hf. reflexivity. }
  destruct (hasConsented env) eqn:Hcons.
  - destruct (lookupEmail env) as [found done] eqn:Hlook. cbn [email actions consentAfter fst snd] in *.
    split; [intros _; split; [reflexivity | left; reflexivity] |].
    split; [discriminate |]. split; [intros _; split; assumption |].
    split; [intros _; exact Hread |].
    intros f _ Hf. pose proof (Hdb f Hf) as Hfd. injection Hfd as -> ->.
    split; [reflexivity |]. intros [H | []]. discriminate.
  - destruct (selection env) as [choice |] eqn:Hsel.
    + destruct (String.eqb_spec choice "Allow") as [-> | Hno].
      * destruct (lookupEmail env) as [found done] eqn:Hlook.
        cbn [email actions consentAfter fst snd] in *.
        split; [intros _; split; [reflexivity | right; reflexivity] |].
        split; [intros _ H; congruence |]. split; [discriminate |].
        split; [intros _; right; right; exact Hread |].
        intros f _ Hf. pose proof (Hdb f Hf) as Hfd. injection Hfd as -> ->.
        split; [reflexivity |].
        intros H. repeat (destruct H as [H | H]; [discriminate |]). exact H.
      * cbn [email actions consentAfter].
        split.
        { intros [(a & Ha & Hr) | [x Hx]]; [| discriminate].
          destruct Ha as [<- | []]. discriminate. }
        split; [reflexivity |]. split; [discriminate |].
        split; discriminate.
    + cbn [email actions consentAfter].
      split.
      { intros [(a & Ha & Hr) | [x Hx]]; [| discriminate].
        destruct Ha as [<- | []]. discriminate. }
      split; [reflexivity |]. split; [discriminate |].
      split; discriminate.
Qed.

(** ** The names of the exported files *)

Lemma all_units_app (p : ascii -> bool) (s t : string) :
  all_units p (s ++ t) = all_units p s && all_units p t.
Proof.
  induction s as [| c s IH]; [reflexivity |].
  change (String c s ++ t) with (String c (s ++ t)). cbn [all_units].
  rewrite IH. apply andb_assoc.
Qed.

Lemma replaceUnsafe_plain (label : string) : all_units plain_unit (replaceUnsafe label) = true.
Proof.
  induction label as [| c label IH]; [reflexivity |].
  cbn [replaceUnsafe all_units]. rewrite IH, andb_true_r.
  destruct (keeps c) eqn:Hc; [| reflexivity].
  unfold plain_unit. rewrite Hc. reflexivity.
Qed.

Lemma replaceUnsafe_length (label : string) :
  String.length (replaceUnsafe label) = String.length label.
Proof. induction label as [| c label IH]; cbn; [reflexivity | rewrite IH; reflexivity]. Qed.

Lemma replaceUnsafe_keeps (label : string) :
  all_units keeps label = true -> replaceUnsafe label = label.
Proof.
  induction label as [| c label IH]; [reflexivity |].
  cbn [all_units replaceUnsafe]. intros H. apply andb_true_iff in H.
  destruct H as [Hc Hrest]. rewrite Hc, (IH Hrest). reflexivity.
Qed.

(** X25.  Whatever the date keys hold, the file names that the webview
    proposes for an exported chart or table consist of letters, digits,
    hyphens, underscores and dots only (no path separator among them); the
    label put in the name is as long as the label of the range, and it is
    the label itself when that has letters, digits and hyphens only, as
    a date key has. *)
Theorem export_file_names_are_plain (env : DateEnv) (activeTab range : string) :
  all_units plain_unit (pngFilename env activeTab range) = true
  /\ (forall name : string,
        csvFilename env activeTab range = Some name -> all_units plain_unit name = true)
  /\ String.length (replaceUnsafe (getDateRangeLabel env range))
     = String.length (getDateRangeLabel env range)
  /\ (all_units keeps (getDateRangeLabel env range) = true ->
      replaceUnsafe (getDateRangeLabel env range) = getDateRangeLabel env range)
  /\ replaceUnsafe "All Time" = "All_Time".
Proof.
  pose proof (replaceUnsafe_plain (getDateRangeLabel env range)) as Hlabel.
  split; [| split; [| split; [| split]]].
  - unfold pngFilename. cbv zeta. rewrite !all_units_app, Hlabel.
    destruct (String.eqb activeTab "byModel"); [reflexivity |].
    destruct (String.eqb activeTab "byTokenQuery"); [reflexivity |].
    destruct (String.eqb activeTab "byProject"); reflexivity.
  - intros name. unfold csvFilename. cbv zeta.
    destruct (String.eqb activeTab "byModel");
      [intros [= <-]; rewrite !all_units_app, Hlabel; reflexivity |].
    destruct (String.eqb activeTab "byTokenQuery");
      [intros [= <-]; rewrite !all_units_app, Hlabel; reflexivity |].
    destruct (String.eqb activeTab "byProject");
      [intros [= <-]; rewrite !all_units_app, Hlabel; reflexivity | discriminate].
  - apply replaceUnsafe_length.
  - apply replaceUnsafe_keeps.
  - reflexivity.
Qed.
